(** * LinkShareBot: a shallow embedding of [bot.py] and its properties

    The bot keeps four module-level containers ([ACTIVE_GROUPS],
    [GROUP_LINKS], [GROUP_INFO], [LAST_MESSAGE_TIMES]) and one module-level
    integer ([MESSAGE_INTERVAL]).  Command handlers, membership handlers and
    the periodic broadcaster read and write them.  The embedding keeps the
    source's names; Python exceptions are an explicit result, the calls to
    the Telegram client and to the clock are recorded in a trace. *)

From Stdlib Require Import ZArith Ascii String List Lia.
From Stdlib Require Import DecimalString DecimalZ DecimalPos.
From stdpp Require Import gmap strings list fin_maps.
Import ListNotations.

Local Open Scope string_scope.
Local Open Scope Z_scope.

(** ** Python string primitives used by the handlers *)

Module Py.

(** A string stands for the UTF-8 encoding of a Python [str], one [ascii]
    per byte. *)

(** [str.isspace] for the characters of one byte, among the separators of
    [str.split()]: TAB, LF, VT, FF, CR, FS, GS, RS, US and SPACE. *)
Definition is_space (c : ascii) : bool :=
  let n := nat_of_ascii c in
  ((9 <=? n)%nat && (n <=? 13)%nat) || ((28 <=? n)%nat && (n <=? 32)%nat).

(** The separators of two bytes: U+0085 (C2 85) and U+00A0 (C2 A0). *)
Definition is_space2 (a b : ascii) : bool :=
  let x := nat_of_ascii a in
  let y := nat_of_ascii b in
  (x =? 194)%nat && ((y =? 133)%nat || (y =? 160)%nat).

(** The separators of three bytes: U+1680 (E1 9A 80), U+2000 to U+200A
    (E2 80 80 to E2 80 8A), U+2028, U+2029, U+202F (E2 80 A8, A9, AF),
    U+205F (E2 81 9F) and U+3000 (E3 80 80). *)
Definition is_space3 (a b c : ascii) : bool :=
  let x := nat_of_ascii a in
  let y := nat_of_ascii b in
  let z := nat_of_ascii c in
  ((x =? 225)%nat && (y =? 154)%nat && (z =? 128)%nat)
  || ((x =? 226)%nat && (y =? 128)%nat
      && (((128 <=? z)%nat && (z <=? 138)%nat)
          || (z =? 168)%nat || (z =? 169)%nat || (z =? 175)%nat))
  || ((x =? 226)%nat && (y =? 129)%nat && (z =? 159)%nat)
  || ((x =? 227)%nat && (y =? 128)%nat && (z =? 128)%nat).

(** The token read so far, if any, goes in front of the others. *)
Definition flush (cur : list ascii) (rest : list string) : list string :=
  match cur with
  | [] => rest
  | _ => string_of_list_ascii (rev cur) :: rest
  end.

(** [split_go cur s]: [cur] is the token being read, reversed.  A
    separator of one, two or three bytes ends the token. *)
Fixpoint split_go (cur : list ascii) (s : string) : list string :=
  match s with
  | EmptyString => flush cur []
  | String a r =>
      if is_space a then flush cur (split_go [] r)
      else
        match r with
        | EmptyString => split_go (a :: cur) r
        | String b r2 =>
            if is_space2 a b then flush cur (split_go [] r2)
            else
              match r2 with
              | EmptyString => split_go (a :: cur) r
              | String c r3 =>
                  if is_space3 a b c then flush cur (split_go [] r3)
                  else split_go (a :: cur) r
              end
        end
  end.

(** [s.split()] with no argument: the maximal whitespace-free runs. *)
Definition split (s : string) : list string := split_go [] s.

(** [s.startswith(('http://', 'https://'))]. *)
Definition startswith_http (s : string) : bool :=
  String.prefix "http://" s || String.prefix "https://" s.

(** The blanks [int] skips around an ASCII numeral: TAB, LF, VT, FF, CR,
    SPACE. *)
Definition is_blank (c : ascii) : bool :=
  let n := nat_of_ascii c in
  ((9 <=? n)%nat && (n <=? 13)%nat) || (n =? 32)%nat.

Fixpoint lstrip (l : list ascii) : list ascii :=
  match l with
  | c :: r => if is_blank c then lstrip r else l
  | [] => []
  end.

Definition strip (s : string) : string :=
  string_of_list_ascii
    (rev (lstrip (rev (lstrip (list_ascii_of_string s))))).

Definition is_digit (c : ascii) : bool :=
  let n := nat_of_ascii c in (48 <=? n)%nat && (n <=? 57)%nat.

Definition digit_value (c : ascii) : Z := Z.of_nat (nat_of_ascii c) - 48.

(** Decimal digits with single underscores allowed between two digits.
    [after_digit] says that the previous character was a digit. *)
Fixpoint digits (s : string) (acc : Z) (after_digit : bool) : option Z :=
  match s with
  | EmptyString => if after_digit then Some acc else None
  | String c r =>
      if is_digit c then digits r (10 * acc + digit_value c) true
      else if Ascii.eqb c "_" && after_digit then digits r acc false
      else None
  end.

(** [int(s)] for an ASCII string, read without a limit on the number of
    digits: [None] stands for [ValueError].  Python integers are unbounded,
    hence [Z].  [int_with] below is [int(s)] for any string. *)
Definition int (s : string) : option Z :=
  match strip s with
  | String "+" r => digits r 0 false
  | String "-" r => Z.opp <$> digits r 0 false
  | t => digits t 0 false
  end.

(** [str(n)] for an integer: decimal digits, with a leading minus sign for
    a negative one. *)
Definition str_int (z : Z) : string := NilZero.string_of_int (Z.to_int z).

(** [str(x)] inside an f-string, for a value that may be [None]. *)
Definition str_opt (o : option string) : string :=
  match o with
  | Some s => s
  | None => "None"
  end.

(** [split_on_go sep cur s]: [cur] is the piece being read, reversed. *)
Fixpoint split_on_go (sep : ascii) (cur : list ascii) (s : string) : list string :=
  match s with
  | EmptyString => [string_of_list_ascii (rev cur)]
  | String c r =>
      if Ascii.eqb c sep then string_of_list_ascii (rev cur) :: split_on_go sep [] r
      else split_on_go sep (c :: cur) r
  end.

(** [s.split(sep)] for a separator of one character: the pieces between
    the separators, the empty ones included. *)
Definition split_on (sep : ascii) (s : string) : list string := split_on_go sep [] s.

Fixpoint lstrip_space (l : list ascii) : list ascii :=
  match l with
  | c :: r => if is_space c then lstrip_space r else l
  | [] => []
  end.

(** [s.strip()] with no argument, for the separators of one byte.  A
    string that has others is not ASCII, and [int_with] leaves its reading
    to the interpreter. *)
Definition strip_space (s : string) : string :=
  string_of_list_ascii
    (rev (lstrip_space (rev (lstrip_space (list_ascii_of_string s))))).

(** The code points for which [str.isspace] holds. *)
Definition whitespace_code_points : list N :=
  [9; 10; 11; 12; 13; 28; 29; 30; 31; 32; 133; 160; 5760;
   8192; 8193; 8194; 8195; 8196; 8197; 8198; 8199; 8200; 8201; 8202;
   8232; 8233; 8239; 8287; 12288]%N.

(** The UTF-8 encoding of a code point. *)
Definition utf8 (cp : N) : string :=
  let byte n := String (ascii_of_N n) EmptyString in
  if (cp <? 128)%N then byte cp
  else if (cp <? 2048)%N then byte (192 + cp / 64)%N ++ byte (128 + cp mod 64)%N
  else if (cp <? 65536)%N then
    byte (224 + cp / 4096)%N ++ byte (128 + (cp / 64) mod 64)%N
      ++ byte (128 + cp mod 64)%N
  else
    byte (240 + cp / 262144)%N ++ byte (128 + (cp / 4096) mod 64)%N
      ++ byte (128 + (cp / 64) mod 64)%N ++ byte (128 + cp mod 64)%N.

(** The separators of [str.split()], encoded. *)
Definition whitespace : list string := List.map utf8 whitespace_code_points.

(** The number of bytes of the separator at the head of [s]; 0 when [s]
    does not start with one. *)
Definition space_len (s : string) : nat :=
  match s with
  | EmptyString => 0
  | String a r =>
      if is_space a then 1
      else
        match r with
        | EmptyString => 0
        | String b r2 =>
            if is_space2 a b then 2
            else
              match r2 with
              | EmptyString => 0
              | String c _ => if is_space3 a b c then 3 else 0
              end
        end
  end.

(** No separator of [str.split()] starts anywhere in [s]. *)
Fixpoint no_space (s : string) : bool :=
  match s with
  | EmptyString => true
  | String _ r => (space_len s =? 0)%nat && no_space r
  end.

(** A byte that continues a character of several bytes. *)
Definition is_continuation (c : ascii) : bool :=
  let n := nat_of_ascii c in (128 <=? n)%nat && (n <? 192)%nat.

(** [s] is empty or starts at the first byte of a character. *)
Definition starts_clean (s : string) : bool :=
  match s with
  | EmptyString => true
  | String c _ => negb (is_continuation c)
  end.

(** A non-empty run of separators. *)
Inductive blank_run : string -> Prop :=
  | blank_run_one w : In w whitespace -> blank_run w
  | blank_run_more w s : In w whitespace -> blank_run s -> blank_run (w ++ s).

(** [s] is empty or starts with a separator: a token may end before it. *)
Definition ends_token (s : string) : Prop :=
  s = "" ∨ ∃ w rest, In w whitespace ∧ s = w ++ rest.

(** Every byte of [s] is an ASCII character. *)
Definition is_ascii (s : string) : bool :=
  forallb (fun c => (nat_of_ascii c <? 128)%nat) (list_ascii_of_string s).

(** [int(s)] where the reading does not depend on the interpreter at hand:
    on an ASCII string of at most [limit] characters it is [int]; [other]
    says what the interpreter does with the rest (digits outside ASCII,
    more digits than its limit allows). *)
Definition int_with (limit : option nat) (other : string -> option Z) (s : string) : option Z :=
  if is_ascii s && match limit with
                   | Some n => (String.length s <=? n)%nat
                   | None => true
                   end
  then int s
  else other s.

End Py.


(** ** Data model *)

(** [message.chat.type], as the Bot API defines it. *)
Inductive ChatType := Private | Group | Supergroup | Channel.

(** The fields of a [telebot] message the handlers read.  Identifiers are
    Python integers. *)
Record Message := {
  chat_id : Z;
  chat_type : ChatType;
  from_user_id : Z;
  text : string;
  new_chat_members : list Z;
  left_chat_member : option Z
}.

(** A value of [GROUP_INFO]: [{"title": ..., "link": ...}].  [chat.title] is
    [None] for a chat without a title, and the link is [None] when
    [DEFAULT_LINK] is. *)
Record GroupInfo := {
  title : option string;
  link : option string
}.

(** The module-level mutable state.  Timestamps ([datetime] values) are
    whole seconds counted from 0001-01-01 00:00:00, the first instant a
    [datetime] can hold. *)
Record State := {
  ACTIVE_GROUPS : gset Z;
  GROUP_LINKS : gmap Z string;
  GROUP_INFO : gmap Z GroupInfo;
  LAST_MESSAGE_TIMES : gmap Z Z;
  MESSAGE_INTERVAL : Z
}.

(** The configuration read once from the environment.  [DEFAULT_LINK] is
    [os.getenv("DEFAULT_LINK")]: [None] when the variable is unset, and not
    checked in any way when it is set. *)
Record Config := {
  ADMIN_IDS : list Z;
  DEFAULT_LINK : option string
}.

(** What the outside answers while one handler (or one round of the
    broadcaster) runs: the Telegram client [bot], the clock, the iteration
    order of a Python [set] and of a [dict] (its insertion order, which the
    content does not determine), and what [int] makes of a token that is
    not ASCII (its reading depends on the Unicode tables of the
    interpreter).  [None] and [false] stand for a call that raises.  [now]
    is the reading of the clock for that handler or round, whose calls of
    [datetime.now()] are taken to fall within the same second. *)
Record World := {
  get_me : option Z;
  get_chat : Z -> option (option string);
  get_chat_administrators : Z -> option (list Z);
  send_message : Z -> string -> bool;
  reply_to : Message -> string -> bool;
  now : Z;
  strftime : string -> Z -> string;
  sleep_max : Z;
  list_of_set : gset Z -> list Z;
  dict_items : gmap Z GroupInfo -> list (Z * GroupInfo);
  int_other : string -> option Z
}.

(** The calls that leave the process, in program order. *)
Inductive Effect :=
  | SendMessage (chat : Z) (body : string)
  | ReplyTo (chat : Z) (body : string)
  | Sleep (secs : Z)
  | LogInfo (line : string)
  | LogError (line : string).

Inductive Exc :=
  | IndexError
  | ValueError
  | OverflowError
  | AttributeError
  | ApiException.

Inductive Res (A : Type) :=
  | Ret (a : A)
  | Raise (e : Exc).

Arguments Ret {A} a.
Arguments Raise {A} e.

(** A piece of Python code: from the state before to its result (a value
    or an exception), the state after and the calls made.  An exception
    does not undo the mutations made before it. *)
Definition Run (A : Type) : Type := State -> Res A * State * list Effect.

Definition ret {A} (a : A) : Run A := fun st => (Ret a, st, []).

Definition raise {A} (e : Exc) : Run A := fun st => (Raise e, st, []).

Definition bind {A B} (m : Run A) (k : A -> Run B) : Run B :=
  fun st =>
    match m st with
    | (Ret a, st1, t1) =>
        match k a st1 with
        | (r, st2, t2) => (r, st2, (t1 ++ t2)%list)
        end
    | (Raise e, st1, t1) => (Raise e, st1, t1)
    end.

(** [try: body except <classes>: handler]; [catches e] tells whether the
    clause catches [e]. *)
Definition try_except {A} (body : Run A) (catches : Exc -> bool) (handler : Run A) : Run A :=
  fun st =>
    match body st with
    | (Ret a, st1, t1) => (Ret a, st1, t1)
    | (Raise e, st1, t1) =>
        if catches e then
          match handler st1 with
          | (r, st2, t2) => (r, st2, (t1 ++ t2)%list)
          end
        else (Raise e, st1, t1)
    end.

Definition emit (e : Effect) : Run unit := fun st => (Ret tt, st, [e]).

Definition get : Run State := fun st => (Ret st, st, []).

Definition modify (f : State -> State) : Run unit := fun st => (Ret tt, f st, []).

#[global] Instance run_ret : MRet Run := @ret.
#[global] Instance run_bind : MBind Run := fun A B k m => bind m k.

(** [for x in l: body x]. *)
Fixpoint for_each {A} (l : list A) (body : A -> Run unit) : Run unit :=
  match l with
  | [] => ret tt
  | x :: r => body x ;; for_each r body
  end.

(** [except Exception] catches every exception of the model. *)
Definition any_exception (e : Exc) : bool := true.

(** [except (IndexError, ValueError)]. *)
Definition index_or_value_error (e : Exc) : bool :=
  match e with
  | IndexError | ValueError => true
  | _ => false
  end.

(** The state and the trace of a run, whatever its result. *)
Definition state_after {A} (r : Res A * State * list Effect) : State := snd (fst r).
Definition trace_of {A} (r : Res A * State * list Effect) : list Effect := snd r.
Definition result_of {A} (r : Res A * State * list Effect) : Res A := fst (fst r).

(** Field updates of the state record. *)
Definition with_ACTIVE_GROUPS (f : gset Z -> gset Z) (st : State) : State :=
  {| ACTIVE_GROUPS := f (ACTIVE_GROUPS st);
     GROUP_LINKS := GROUP_LINKS st;
     GROUP_INFO := GROUP_INFO st;
     LAST_MESSAGE_TIMES := LAST_MESSAGE_TIMES st;
     MESSAGE_INTERVAL := MESSAGE_INTERVAL st |}.

Definition with_GROUP_LINKS (f : gmap Z string -> gmap Z string) (st : State) : State :=
  {| ACTIVE_GROUPS := ACTIVE_GROUPS st;
     GROUP_LINKS := f (GROUP_LINKS st);
     GROUP_INFO := GROUP_INFO st;
     LAST_MESSAGE_TIMES := LAST_MESSAGE_TIMES st;
     MESSAGE_INTERVAL := MESSAGE_INTERVAL st |}.

Definition with_GROUP_INFO (f : gmap Z GroupInfo -> gmap Z GroupInfo) (st : State) : State :=
  {| ACTIVE_GROUPS := ACTIVE_GROUPS st;
     GROUP_LINKS := GROUP_LINKS st;
     GROUP_INFO := f (GROUP_INFO st);
     LAST_MESSAGE_TIMES := LAST_MESSAGE_TIMES st;
     MESSAGE_INTERVAL := MESSAGE_INTERVAL st |}.

Definition with_LAST_MESSAGE_TIMES (f : gmap Z Z -> gmap Z Z) (st : State) : State :=
  {| ACTIVE_GROUPS := ACTIVE_GROUPS st;
     GROUP_LINKS := GROUP_LINKS st;
     GROUP_INFO := GROUP_INFO st;
     LAST_MESSAGE_TIMES := f (LAST_MESSAGE_TIMES st);
     MESSAGE_INTERVAL := MESSAGE_INTERVAL st |}.

Definition with_MESSAGE_INTERVAL (secs : Z) (st : State) : State :=
  {| ACTIVE_GROUPS := ACTIVE_GROUPS st;
     GROUP_LINKS := GROUP_LINKS st;
     GROUP_INFO := GROUP_INFO st;
     LAST_MESSAGE_TIMES := LAST_MESSAGE_TIMES st;
     MESSAGE_INTERVAL := secs |}.

(** [GROUP_INFO[chat]["link"] = l], under [if chat in GROUP_INFO]. *)
Definition set_info_link (l : option string) (i : GroupInfo) : GroupInfo :=
  {| title := title i; link := l |}.

(** ** Start-up *)

(** [MESSAGE_INTERVAL = int(os.getenv("MESSAGE_INTERVAL", 24)) * 3600]:
    the argument is the value of the environment variable, [None] when it
    is unset; the result is [None] when [int] raises.  The variable is read
    as an ASCII numeral of any length; the intervals that the program can
    start with are all among those that this function gives, since it gives
    every whole number of hours. *)
Definition initial_MESSAGE_INTERVAL (env : option string) : option Z :=
  match env with
  | None => Some (24 * 3600)
  | Some s => (fun hours => hours * 3600) <$> Py.int s
  end.

(** [ADMIN_IDS = [int(id.strip()) for id in os.getenv("ADMIN_IDS").split(",")]
    if os.getenv("ADMIN_IDS") else []]: [env] is the value of the
    environment variable, the result is [None] when an [int] raises.  A
    piece that is ASCII and has at most 640 characters is read the same by
    every interpreter (640 is the least digit limit one can configure);
    [other] says what the interpreter at hand does with any other piece. *)
Definition load_ADMIN_IDS (other : string -> option Z) (env : option string)
  : option (list Z) :=
  match env with
  | None => Some []
  | Some EmptyString => Some []
  | Some s =>
      mapM (fun id => Py.int_with (Some 640%nat)
                        (fun _ => other id) (Py.strip_space id))
           (Py.split_on "," s)
  end.

(** The containers are empty when the module is loaded. *)
Definition initial_state (interval : Z) : State :=
  {| ACTIVE_GROUPS := ∅;
     GROUP_LINKS := ∅;
     GROUP_INFO := ∅;
     LAST_MESSAGE_TIMES := ∅;
     MESSAGE_INTERVAL := interval |}.

(** ** Message texts *)

Definition admin_only : string := "🚫 Admin only command!".

Definition setlink_usage : string := "Usage: /setlink https://example.com".

Definition interval_usage : string := "Usage: /interval 24 (sets to 24 hours)".

Definition nl : string := String (ascii_of_nat 10) EmptyString.

Definition help_text_first : string := "
🤖 *Bot Commands*:

/help - Show this help
/link - Show current link
/setlink [url] - Set custom link (admins)
/defaultlink - Reset to default link (admins)
/interval [hours] - Change interval (admins)
/stats - Show statistics (admins)
".

Definition help_text_admin : string := "
🛠️ *Admin Help Menu* 🛠️

I'm a link-sharing bot that automatically posts links in groups.

🔧 *Admin Commands*:
/stats - View bot statistics
/interval [hours] - Change posting frequency
/setlink [url] - Set custom group link
/defaultlink - Reset to default link

ℹ️ *General Commands*:
/link - Show current link
/myid - Show your Telegram ID
/help - Show this message
".

Definition help_text_user : string := "
ℹ️ *User Help Menu* ℹ️

I'm a link-sharing bot that automatically posts links in this group.

📋 *Available Commands*:
/link - Show current group link
/myid - Show your Telegram ID
/help - Show this message

Need help? Contact the group admins.
".

Definition admin_text : string := "
👑 *Admin Control Panel* 👑

📊 *Bot Management*:
/start - Show this panel
/stats - View bot statistics
/interval [hours] - Change posting interval

🔗 *Link Management*:
/setlink [url] - Set custom link for this group
/defaultlink - Reset to default link
/link - Show current link

👥 *User Tools*:
/myid - Show your Telegram ID
/help - Show help for all users
".

Definition user_text : string := "
🤖 *Welcome to Link Sharing Bot* 🌐

🔗 *Available Commands*:
/link - Show current group link
/help - Show detailed help
/myid - Show your Telegram ID

📢 The bot automatically shares links in this group.
Admins can customize the link using /setlink
".

Definition admin_tip : string :=
  "🛠 *Admin Tip*: Use /setlink to change this group's link".

(** ** Dates *)

(** The last second a [datetime] can hold, 9999-12-31 23:59:59, counted
    from 0001-01-01 00:00:00. *)
Definition datetime_max : Z := 315537897599.

(** [t + timedelta(seconds=secs)]: [None] stands for [OverflowError], which
    [timedelta] raises when the days of [secs] exceed 999999999 in
    magnitude, and the addition when the result leaves the years 1 to
    9999. *)
Definition add_seconds (t secs : Z) : option Z :=
  if (-999999999 <=? secs / 86400) && (secs / 86400 <=? 999999999)
     && (0 <=? t + secs) && (t + secs <=? datetime_max)
  then Some (t + secs)
  else None.

(** ** The handlers *)

Section Bot.

Variable cfg : Config.
Variable w : World.

(** *** Calls to the client and to the clock *)

Definition bot_get_me : Run Z :=
  match get_me w with
  | Some me => ret me
  | None => raise ApiException
  end.

Definition bot_get_chat (chat : Z) : Run (option string) :=
  match get_chat w chat with
  | Some chat_title => ret chat_title
  | None => raise ApiException
  end.

Definition bot_get_chat_administrators (chat : Z) : Run (list Z) :=
  match get_chat_administrators w chat with
  | Some admins => ret admins
  | None => raise ApiException
  end.

Definition bot_send_message (chat : Z) (body : string) : Run unit :=
  fun st =>
    (if send_message w chat body then Ret tt else Raise ApiException,
     st, [SendMessage chat body]).

Definition bot_reply_to (message : Message) (body : string) : Run unit :=
  fun st =>
    (if reply_to w message body then Ret tt else Raise ApiException,
     st, [ReplyTo (chat_id message) body]).

(** [time.sleep(secs)]: [ValueError] for a negative argument,
    [OverflowError] above what the platform can represent. *)
Definition time_sleep (secs : Z) : Run unit :=
  if secs <? 0 then raise ValueError
  else if sleep_max w <? secs then raise OverflowError
  else emit (Sleep secs).

(** *** Helper functions *)

Definition is_admin (user_id : Z) : bool :=
  bool_decide (user_id ∈ ADMIN_IDS cfg).

Definition is_group_admin (message : Message) : Run bool :=
  match chat_type message with
  | Group | Supergroup =>
      try_except
        (admins ← bot_get_chat_administrators (chat_id message);
         ret (bool_decide (from_user_id message ∈ admins)))
        any_exception
        (emit (LogError "Error checking admin status: ");; ret false)
  | Private | Channel => ret false
  end.

(** [is_admin(message.from_user.id) or is_group_admin(message)]: the
    second operand is evaluated only when the first is false. *)
Definition is_admin_or_group_admin (message : Message) : Run bool :=
  if is_admin (from_user_id message) then ret true
  else is_group_admin message.

(** [GROUP_LINKS.get(chat, DEFAULT_LINK)]. *)
Definition get_link (st : State) (chat : Z) : option string :=
  match GROUP_LINKS st !! chat with
  | Some l => Some l
  | None => DEFAULT_LINK cfg
  end.

Definition get_next_post_time (chat : Z) : Run string :=
  st ← get;
  match LAST_MESSAGE_TIMES st !! chat with
  | None => ret "soon (not posted yet)"
  | Some last =>
      match add_seconds last (MESSAGE_INTERVAL st) with
      | Some next_time => ret (strftime w "%Y-%m-%d %H:%M:%S" next_time)
      | None => raise OverflowError
      end
  end.

(** The definition at the end of the module; the one that precedes it in
    the file is rebound before any handler can run. *)
Definition send_welcome_and_link (chat : Z) : Run unit :=
  try_except
    (chat_title ← bot_get_chat chat;
     st ← get;
     modify (with_GROUP_INFO
               <[chat := {| title := chat_title; link := get_link st chat |}]>);;
     let link_msg :=
       nl ++ "🌟 *Welcome to " ++ Py.str_opt chat_title ++ "!* 🌟" ++ nl ++ nl
          ++ "Here's our group link:" ++ nl
          ++ "🔗 " ++ Py.str_opt (get_link st chat) ++ nl ++ nl
          ++ "• Share with friends" ++ nl
          ++ "• Join anytime" ++ nl
          ++ "• Link never expires" ++ nl in
     bot_send_message chat link_msg;;
     modify (with_LAST_MESSAGE_TIMES <[chat := now w]>);;
     emit (LogInfo ("Auto-sent link to new group " ++ Py.str_int chat)))
    any_exception
    (emit (LogError ("Error sending welcome to " ++ Py.str_int chat ++ ": "))).

(** The body of the periodic message. *)
Definition link_message (current_link : option string) : string :=
  "📢 *Group Link*" ++ nl ++ nl
    ++ "🔗 " ++ Py.str_opt current_link ++ nl
    ++ "⏰ " ++ strftime w "%Y-%m-%d %H:%M" (now w).

Definition send_link_to_group (chat : Z) : Run unit :=
  try_except
    (st ← get;
     let current_link := get_link st chat in
     let message := link_message current_link in
     bot_send_message chat message;;
     modify (with_LAST_MESSAGE_TIMES <[chat := now w]>);;
     emit (LogInfo ("Sent link to group " ++ Py.str_int chat)))
    any_exception
    (emit (LogError ("Error sending to group " ++ Py.str_int chat ++ ": "));;
     modify (with_ACTIVE_GROUPS (fun a => a ∖ {[chat]}))).

(** *** Command handlers *)

(** The first function registered for [/help]. *)
Definition send_help_first (message : Message) : Run unit :=
  bot_reply_to message help_text_first.

(** The second function registered for [/help]. *)
Definition send_help (message : Message) : Run unit :=
  bot_reply_to message
    (if is_admin (from_user_id message) then help_text_admin else help_text_user).

Definition show_user_id (message : Message) : Run unit :=
  bot_reply_to message
    ("👤 Your Telegram ID: `" ++ Py.str_int (from_user_id message) ++ "`").

Definition show_link (message : Message) : Run unit :=
  st ← get;
  let current_link := get_link st (chat_id message) in
  bot_reply_to message ("🔗 Current link:" ++ nl ++ Py.str_opt current_link).

(** [message.text.split()[1]]. *)
Definition second_token (message : Message) : Run string :=
  match Py.split (text message) !! 1%nat with
  | Some t => ret t
  | None => raise IndexError
  end.

Definition set_link (message : Message) : Run unit :=
  allowed ← is_admin_or_group_admin message;
  if negb allowed then bot_reply_to message admin_only
  else
    try_except
      (new_link ← second_token message;
       (if negb (Py.startswith_http new_link) then raise ValueError else ret tt);;
       modify (with_GROUP_LINKS <[chat_id message := new_link]>);;
       modify (with_GROUP_INFO (alter (set_info_link (Some new_link)) (chat_id message)));;
       bot_reply_to message ("✅ Link updated to:" ++ nl ++ new_link))
      index_or_value_error
      (bot_reply_to message setlink_usage).

Definition default_link (message : Message) : Run unit :=
  allowed ← is_admin_or_group_admin message;
  if negb allowed then bot_reply_to message admin_only
  else
    modify (with_GROUP_LINKS (delete (chat_id message)));;
    modify (with_GROUP_INFO (alter (set_info_link (DEFAULT_LINK cfg)) (chat_id message)));;
    bot_reply_to message
      ("✅ Reset to default link:" ++ nl ++ Py.str_opt (DEFAULT_LINK cfg)).

(** [int(message.text.split()[1])].  No digit limit here: a message text
    has at most 4096 characters, and the limit of the interpreter is 4300
    digits unless it is configured otherwise. *)
Definition second_token_int (message : Message) : Run Z :=
  tok ← second_token message;
  match Py.int_with None (int_other w) tok with
  | Some hours => ret hours
  | None => raise ValueError
  end.

Definition set_interval (message : Message) : Run unit :=
  allowed ← is_admin_or_group_admin message;
  if negb allowed then bot_reply_to message admin_only
  else
    try_except
      (hours ← second_token_int message;
       modify (with_MESSAGE_INTERVAL (hours * 3600));;
       bot_reply_to message
         ("⏰ Posting interval set to " ++ Py.str_int hours ++ " hours"))
      index_or_value_error
      (bot_reply_to message interval_usage).

(** One line of the listing of [show_stats]. *)
Definition stats_line (entry : Z * GroupInfo) : string :=
  nl ++ "- " ++ Py.str_opt (title (snd entry)) ++ ": " ++ Py.str_opt (link (snd entry)).

Definition show_stats (message : Message) : Run unit :=
  if negb (is_admin (from_user_id message)) then bot_reply_to message admin_only
  else
    st ← get;
    next_post ← get_next_post_time (chat_id message);
    let stats_text :=
      nl ++ "📊 *Bot Statistics*:" ++ nl ++ nl
        ++ "• Active groups: " ++ Py.str_int (Z.of_nat (size (ACTIVE_GROUPS st))) ++ nl
        ++ "• Posting interval: " ++ Py.str_int (MESSAGE_INTERVAL st / 3600) ++ " hours" ++ nl
        ++ "• Next post here: " ++ next_post ++ nl ++ nl
        ++ "📋 *Group Links*:" ++ nl in
    bot_reply_to message
      (fold_left (fun acc entry => acc ++ stats_line entry)
                 (dict_items w (GROUP_INFO st)) stats_text).

Definition is_group_chat (message : Message) : bool :=
  match chat_type message with
  | Group | Supergroup => true
  | Private | Channel => false
  end.

Definition start_command (message : Message) : Run unit :=
  bot_reply_to message
    (if is_admin (from_user_id message) then admin_text else user_text);;
  if is_group_chat message then
    modify (with_ACTIVE_GROUPS (fun a => {[chat_id message]} ∪ a));;
    st ← get;
    match GROUP_INFO st !! chat_id message with
    | None => send_welcome_and_link (chat_id message)
    | Some _ => ret tt
    end
  else ret tt.

(** *** Membership handlers *)

(** The body of the loop of the first function registered for
    [new_chat_members], for one member. *)
Definition new_member_first_body (message : Message) (member : Z) : Run unit :=
  me ← bot_get_me;
  if bool_decide (member = me) then
    modify (with_ACTIVE_GROUPS (fun a => {[chat_id message]} ∪ a));;
    send_welcome_and_link (chat_id message)
  else ret tt.

(** The first function registered for [new_chat_members]. *)
Definition new_member_first (message : Message) : Run unit :=
  for_each (new_chat_members message) (new_member_first_body message).

(** The body of the loop of the second function registered for
    [new_chat_members], for one member. *)
Definition new_member_body (message : Message) (member : Z) : Run unit :=
  me ← bot_get_me;
  if bool_decide (member = me) then
    modify (with_ACTIVE_GROUPS (fun a => {[chat_id message]} ∪ a));;
    send_welcome_and_link (chat_id message);;
    allowed ← is_admin_or_group_admin message;
    if (allowed : bool) then bot_send_message (chat_id message) admin_tip else ret tt
  else ret tt.

(** The second function registered for [new_chat_members]. *)
Definition new_member (message : Message) : Run unit :=
  for_each (new_chat_members message) (new_member_body message).

Definition left_member (message : Message) : Run unit :=
  match left_chat_member message with
  | None => raise AttributeError
  | Some left_id =>
      me ← bot_get_me;
      if bool_decide (left_id = me) then
        modify (with_ACTIVE_GROUPS (fun a => a ∖ {[chat_id message]}));;
        modify (with_GROUP_INFO (delete (chat_id message)));;
        emit (LogInfo ("Removed from group " ++ Py.str_int (chat_id message)))
      else ret tt
  end.

(** *** The periodic broadcaster *)

(** [for group_id in list(ACTIVE_GROUPS): send_link_to_group(group_id)],
    on the copy [snapshot]. *)
Definition broadcast_pass (snapshot : list Z) : Run unit :=
  for_each snapshot send_link_to_group.

(** One round of the [while True] loop of [send_links_periodically]. *)
Definition send_links_round : Run unit :=
  try_except
    (st ← get;
     broadcast_pass (list_of_set w (ACTIVE_GROUPS st));;
     st' ← get;
     time_sleep (MESSAGE_INTERVAL st'))
    any_exception
    (emit (LogError "Error in scheduler: ");;
     time_sleep 60).

End Bot.

(** ** The program as a transition system *)

(** The first [rounds] of the [while True] loop, one [World] per round.  An
    exception that leaves a round ends the thread. *)
Fixpoint send_links_periodically (cfg : Config) (rounds : list World) : Run unit :=
  match rounds with
  | [] => ret tt
  | w :: later => send_links_round cfg w;; send_links_periodically cfg later
  end.

(** The functions registered with [bot.message_handler]. *)
Inductive Handler :=
  | OnHelpFirst
  | OnHelp
  | OnMyId
  | OnLink
  | OnSetLink
  | OnDefaultLink
  | OnInterval
  | OnStats
  | OnStart
  | OnNewMemberFirst
  | OnNewMember
  | OnLeftMember.

#[global] Instance Handler_eq_dec : EqDecision Handler.
Proof. solve_decision. Defined.

Definition run_handler (cfg : Config) (w : World) (h : Handler) : Message -> Run unit :=
  match h with
  | OnHelpFirst => send_help_first w
  | OnHelp => send_help cfg w
  | OnMyId => show_user_id w
  | OnLink => show_link cfg w
  | OnSetLink => set_link cfg w
  | OnDefaultLink => default_link cfg w
  | OnInterval => set_interval cfg w
  | OnStats => show_stats cfg w
  | OnStart => start_command cfg w
  | OnNewMemberFirst => new_member_first cfg w
  | OnNewMember => new_member cfg w
  | OnLeftMember => left_member w
  end.

(** [list(ACTIVE_GROUPS)] holds each element of the set once, in an order
    Python does not specify. *)
Definition set_order_ok (w : World) : Prop :=
  ∀ a : gset Z, list_of_set w a ≡ₚ elements a.

(** Something that happens to the process: an update is handed to a handler,
    or the broadcaster runs one round.  The two threads are interleaved at
    this granularity. *)
Inductive Event :=
  | Update (h : Handler) (w : World) (message : Message)
  | Round (w : World).

Definition step (cfg : Config) (ev : Event) (st : State) : State :=
  match ev with
  | Update h w message => state_after (run_handler cfg w h message st)
  | Round w => state_after (send_links_round cfg w st)
  end.

Definition event_ok (ev : Event) : Prop :=
  match ev with
  | Update _ _ _ => True
  | Round w => set_order_ok w
  end.

Definition run_events (cfg : Config) (evs : list Event) (st : State) : State :=
  fold_left (fun st ev => step cfg ev st) evs st.

Inductive reachable (cfg : Config) : State -> Prop :=
  | reachable_init env interval :
      initial_MESSAGE_INTERVAL env = Some interval ->
      reachable cfg (initial_state interval)
  | reachable_step st ev :
      reachable cfg st -> event_ok ev -> reachable cfg (step cfg ev st).

(** ** Vocabulary of the statements *)

(** The caller passes the check of the admin commands: a process-wide admin,
    or listed by the client among the administrators of a group chat. *)
Definition authorized (cfg : Config) (w : World) (message : Message) : bool :=
  is_admin cfg (from_user_id message)
  || (is_group_chat message
      && match get_chat_administrators w (chat_id message) with
         | Some admins => bool_decide (from_user_id message ∈ admins)
         | None => false
         end).

(** The caller is not reported as an administrator of the chat. *)
Definition not_chat_admin (w : World) (message : Message) : Prop :=
  ∀ admins, get_chat_administrators w (chat_id message) = Some admins ->
            from_user_id message ∉ admins.

(** The chats of the [send_message] calls of a trace, in order. *)
Definition sent_to (t : list Effect) : list Z :=
  omap (fun e => match e with SendMessage chat _ => Some chat | _ => None end) t.

(** The bodies of the [reply_to] calls of a trace. *)
Definition replies (t : list Effect) : list string :=
  omap (fun e => match e with ReplyTo _ body => Some body | _ => None end) t.

(** The durations of the completed [time.sleep] calls of a trace. *)
Definition sleeps (t : list Effect) : list Z :=
  omap (fun e => match e with Sleep secs => Some secs | _ => None end) t.

Definition is_sleep (e : Effect) : bool :=
  match e with
  | Sleep _ => true
  | _ => false
  end.

Definition is_send (e : Effect) : bool :=
  match e with
  | SendMessage _ _ => true
  | _ => false
  end.

(** What the end of a round adds to the trace when the interval is [secs]:
    the sleep itself, or the logged failure of [time.sleep] followed by the
    sleep of 60 seconds (itself subject to the platform's limit). *)
Definition sleep_effects (w : World) (secs : Z) : list Effect :=
  if (0 <=? secs) && (secs <=? sleep_max w) then [Sleep secs]
  else LogError "Error in scheduler: "
         :: (if 60 <=? sleep_max w then [Sleep 60] else []).

(** The send of the periodic message to [chat] raises. *)
Definition send_fails (cfg : Config) (w : World) (st : State) (chat : Z) : bool :=
  negb (send_message w chat (link_message w (get_link cfg st chat))).

(** A run that changes nothing and answers with the fixed denial. *)
Definition denied (message : Message) (st : State) (r : Res unit * State * list Effect) : Prop :=
  state_after r = st
  ∧ replies (trace_of r) = [admin_only]
  ∧ sent_to (trace_of r) = []
  ∧ sleeps (trace_of r) = [].

(** A non-empty string that starts with [http://] or [https://]. *)
Definition is_http_url (l : string) : Prop :=
  Py.startswith_http l = true ∧ l ≠ "".

(** The argument of [/setlink] is missing or fails the prefix check. *)
Definition bad_url_argument (message : Message) : Prop :=
  match Py.split (text message) !! 1%nat with
  | Some u => Py.startswith_http u = false
  | None => True
  end.

(** A piece of code relates the state before to the state after by [P],
    whatever its result. *)
Definition preserves {A} (P : State -> State -> Prop) (m : Run A) : Prop :=
  ∀ st, P st (state_after (m st)).

(** [Q] holds after whenever it holds before. *)
Definition keeps (Q : State -> Prop) (st st' : State) : Prop := Q st -> Q st'.

(** The next-post date of [chat] cannot be computed: a last-broadcast time
    is recorded and adding the interval to it overflows. *)
Definition next_post_overflows (st : State) (chat : Z) : bool :=
  match LAST_MESSAGE_TIMES st !! chat with
  | Some last =>
      match add_seconds last (MESSAGE_INTERVAL st) with
      | Some _ => false
      | None => true
      end
  | None => false
  end.


(** A last-broadcast time is recorded for [chat]. *)
Definition has_last_time (chat : Z) (st : State) : Prop :=
  is_Some (LAST_MESSAGE_TIMES st !! chat).

(** No stored override contains a whitespace character. *)
Definition overrides_unbroken (st : State) : Prop :=
  ∀ chat l, GROUP_LINKS st !! chat = Some l -> Py.no_space l = true ∧ l ≠ "".

(** [ctx_ok cur s]: no separator starts at a byte of the token being read,
    with [s] for what follows it. *)
Fixpoint ctx_ok (cur : list ascii) (s : string) : Prop :=
  match cur with
  | [] => True
  | c :: cur' => Py.space_len (String c s) = 0%nat ∧ ctx_ok cur' (String c s)
  end.

(** The interval is a whole number of hours. *)
Definition whole_hours (st : State) : Prop := ∃ h, MESSAGE_INTERVAL st = h * 3600.

(** The overrides are untouched, and a group record is either the one from
    before or carries the link [get_link] gives for its chat. *)
Definition links_kept (cfg : Config) (st st' : State) : Prop :=
  GROUP_LINKS st' = GROUP_LINKS st
  ∧ ∀ chat info, GROUP_INFO st' !! chat = Some info ->
                 GROUP_INFO st !! chat = Some info ∨ link info = get_link cfg st chat.

(** Every stored override is a URL, and every group record carries the link
    of its chat. *)
Definition links_consistent (cfg : Config) (st : State) : Prop :=
  (∀ chat l, GROUP_LINKS st !! chat = Some l -> is_http_url l)
  ∧ (∀ chat info, GROUP_INFO st !! chat = Some info -> link info = get_link cfg st chat).

(** ** Concrete inputs *)

Module Sample.

Definition cfg : Config :=
  {| ADMIN_IDS := [1]; DEFAULT_LINK := Some "https://default.example" |}.

(** The configuration of a process started with a [DEFAULT_LINK] that is
    not a URL. *)
Definition cfg_plain : Config :=
  {| ADMIN_IDS := [1]; DEFAULT_LINK := Some "example.com" |}.

(** A client whose calls all succeed; the bot is user 99, user 2
    administers every group. *)
Definition world : World :=
  {| get_me := Some 99;
     get_chat := fun _ => Some (Some "Team");
     get_chat_administrators := fun _ => Some [2];
     send_message := fun _ _ => true;
     reply_to := fun _ _ => true;
     now := 1000;
     strftime := fun _ t => Py.str_int t;
     sleep_max := 9223372036;
     list_of_set := elements;
     dict_items := map_to_list;
     int_other := fun _ => None |}.

(** The same client, except that sending to chat 9 raises. *)
Definition world_9_fails : World :=
  {| get_me := Some 99;
     get_chat := fun _ => Some (Some "Team");
     get_chat_administrators := fun _ => Some [2];
     send_message := fun chat _ => negb (chat =? 9);
     reply_to := fun _ _ => true;
     now := 1000;
     strftime := fun _ t => Py.str_int t;
     sleep_max := 9223372036;
     list_of_set := elements;
     dict_items := map_to_list;
     int_other := fun _ => None |}.

Definition command (chat : Z) (ty : ChatType) (user : Z) (line : string) : Message :=
  {| chat_id := chat; chat_type := ty; from_user_id := user; text := line;
     new_chat_members := []; left_chat_member := None |}.

Definition bot_joined (chat user : Z) : Message :=
  {| chat_id := chat; chat_type := Group; from_user_id := user; text := "";
     new_chat_members := [99]; left_chat_member := None |}.

Definition bot_left (chat user : Z) : Message :=
  {| chat_id := chat; chat_type := Group; from_user_id := user; text := "";
     new_chat_members := []; left_chat_member := Some 99 |}.

Definition start : State := initial_state (24 * 3600).

(** [/start] was sent in the groups 7, 8 and 9. *)
Definition three_groups : State :=
  run_events cfg
    [Update OnStart world (command 7 Group 5 "/start");
     Update OnStart world (command 8 Group 5 "/start");
     Update OnStart world (command 9 Supergroup 5 "/start")]
    start.

End Sample.

(** ** Evaluation of the primitives *)

Example split_tokens :
  Py.split "/setlink  https://a.b  extra" = ["/setlink"; "https://a.b"; "extra"].
Proof. reflexivity. Qed.

Example split_unicode_separators :
  Py.split ("/setlink" ++ Py.utf8 160 ++ "https://a.example" ++ Py.utf8 8232 ++ "x")
  = ["/setlink"; "https://a.example"; "x"].
Proof. reflexivity. Qed.

Example split_command_only : Py.split "/setlink" = ["/setlink"].
Proof. reflexivity. Qed.

Example int_negative : Py.int "-5" = Some (-5).
Proof. reflexivity. Qed.

Example int_underscore : Py.int "1_000" = Some 1000.
Proof. reflexivity. Qed.

Example int_double_underscore : Py.int "1__0" = None.
Proof. reflexivity. Qed.

Example int_fraction : Py.int "2.5" = None.
Proof. reflexivity. Qed.

Example str_int_negative : Py.str_int (-120) = "-120".
Proof. reflexivity. Qed.

(** ** [int] reads what [str] writes *)

Lemma digits_uint_acc u : ∀ acc : positive,
  Py.digits (NilEmpty.string_of_uint u) (Z.pos acc) true
  = Some (Z.pos (Pos.of_uint_acc u acc)).
Proof.
  induction u; intros acc; cbn [NilEmpty.string_of_uint Py.digits Pos.of_uint_acc];
    try reflexivity.
  all: match goal with
       | |- context [Py.is_digit ?c] =>
           change (Py.is_digit c) with true; cbv iota
       end.
  all: match goal with
       | |- context [Py.digit_value ?c] =>
           let v := eval vm_compute in (Py.digit_value c) in
           change (Py.digit_value c) with v
       end.
  all: rewrite <- IHu; f_equal; lia.
Qed.

Lemma digits_uint u : ∀ b,
  u ≠ Decimal.Nil ∨ b = true ->
  Py.digits (NilEmpty.string_of_uint u) 0 b = Some (Z.of_N (Pos.of_uint u)).
Proof.
  induction u; intros b Hb; cbn [NilEmpty.string_of_uint Py.digits Pos.of_uint].
  - destruct Hb as [Hb| ->]; [congruence|reflexivity].
  - change (Py.is_digit "0") with true. cbv iota.
    change (10 * 0 + Py.digit_value "0") with 0. apply IHu. by right.
  - change (Py.is_digit "1") with true. cbv iota. apply (digits_uint_acc u 1).
  - change (Py.is_digit "2") with true. cbv iota. apply (digits_uint_acc u 2).
  - change (Py.is_digit "3") with true. cbv iota. apply (digits_uint_acc u 3).
  - change (Py.is_digit "4") with true. cbv iota. apply (digits_uint_acc u 4).
  - change (Py.is_digit "5") with true. cbv iota. apply (digits_uint_acc u 5).
  - change (Py.is_digit "6") with true. cbv iota. apply (digits_uint_acc u 6).
  - change (Py.is_digit "7") with true. cbv iota. apply (digits_uint_acc u 7).
  - change (Py.is_digit "8") with true. cbv iota. apply (digits_uint_acc u 8).
  - change (Py.is_digit "9") with true. cbv iota. apply (digits_uint_acc u 9).
Qed.

Lemma lstrip_no_blank l :
  Forall (fun c => Py.is_blank c = false) l -> Py.lstrip l = l.
Proof.
  intros H. destruct H as [|c l Hc Hl]; [reflexivity|]. simpl. by rewrite Hc.
Qed.

Lemma strip_no_blank s :
  Forall (fun c => Py.is_blank c = false) (list_ascii_of_string s) ->
  Py.strip s = s.
Proof.
  intros H. unfold Py.strip. rewrite (lstrip_no_blank _ H).
  rewrite lstrip_no_blank.
  - by rewrite rev_involutive, string_of_list_ascii_of_string.
  - apply List.Forall_rev. exact H.
Qed.

Lemma uint_no_blank u :
  Forall (fun c => Py.is_blank c = false)
         (list_ascii_of_string (NilEmpty.string_of_uint u)).
Proof.
  induction u; simpl; constructor; try reflexivity; assumption.
Qed.

Lemma int_uint u :
  u ≠ Decimal.Nil ->
  Py.int (NilEmpty.string_of_uint u) = Some (Z.of_N (Pos.of_uint u))
  ∧ Py.int (String "-" (NilEmpty.string_of_uint u)) = Some (- Z.of_N (Pos.of_uint u)).
Proof.
  intros Hu. unfold Py.int. split.
  - rewrite strip_no_blank by apply uint_no_blank.
    rewrite <- (digits_uint u false) by (by left).
    destruct u; try congruence; reflexivity.
  - rewrite strip_no_blank
      by (simpl; constructor; [reflexivity|apply uint_no_blank]).
    by rewrite (digits_uint u false) by (by left).
Qed.

Lemma string_of_uint_nonnil d :
  d ≠ Decimal.Nil -> NilZero.string_of_uint d = NilEmpty.string_of_uint d.
Proof. intros Hd. destruct d; [congruence|reflexivity..]. Qed.

(** Every integer has a token that [int] reads back: its decimal
    notation. *)
Lemma int_str_int z : Py.int (Py.str_int z) = Some z.
Proof.
  destruct z as [|p|p]; [reflexivity| |].
  - change (Py.str_int (Z.pos p)) with (NilZero.string_of_uint (Pos.to_uint p)).
    pose proof (Unsigned.to_uint_nonnil p) as Hnil.
    rewrite string_of_uint_nonnil by exact Hnil.
    rewrite (proj1 (int_uint _ Hnil)). by rewrite Unsigned.of_to.
  - change (Py.str_int (Z.neg p))
      with (String "-" (NilZero.string_of_uint (Pos.to_uint p))).
    pose proof (Unsigned.to_uint_nonnil p) as Hnil.
    rewrite string_of_uint_nonnil by exact Hnil.
    rewrite (proj2 (int_uint _ Hnil)). by rewrite Unsigned.of_to.
Qed.

(** ** What [int] reads is ASCII *)

Lemma is_ascii_Forall s :
  Py.is_ascii s = true
  ↔ Forall (fun c => (nat_of_ascii c < 128)%nat) (list_ascii_of_string s).
Proof.
  unfold Py.is_ascii. rewrite forallb_forall, List.Forall_forall.
  split; intros H c Hc; specialize (H c Hc).
  - by apply Nat.ltb_lt.
  - by apply Nat.ltb_lt.
Qed.

Lemma digits_ascii s : ∀ acc b v,
  Py.digits s acc b = Some v -> Py.is_ascii s = true.
Proof.
  induction s as [|c r IH]; intros acc b v H; [reflexivity|].
  apply is_ascii_Forall. simpl. simpl in H.
  destruct (Py.is_digit c) eqn:Hd.
  - constructor; [|apply is_ascii_Forall; by eapply IH].
    unfold Py.is_digit in Hd. cbv zeta in Hd. apply andb_true_iff in Hd as [_ Hd].
    apply Nat.leb_le in Hd. revert Hd. generalize (nat_of_ascii c). lia.
  - destruct (Ascii.eqb c "_" && b) eqn:Hu; [|discriminate].
    apply andb_true_iff in Hu as [Hu _]. apply Ascii.eqb_eq in Hu. subst c.
    constructor; [by apply Nat.ltb_lt|apply is_ascii_Forall; by eapply IH].
Qed.

Lemma lstrip_Forall (P : ascii -> Prop) l :
  (∀ c, Py.is_blank c = true -> P c) ->
  Forall P (Py.lstrip l) -> Forall P l.
Proof.
  intros Hblank. induction l as [|c r IH]; intros H; [constructor|].
  simpl in H. destruct (Py.is_blank c) eqn:Hc; [|exact H].
  constructor; [by apply Hblank|by apply IH].
Qed.

Lemma is_blank_ascii c : Py.is_blank c = true -> (nat_of_ascii c < 128)%nat.
Proof.
  unfold Py.is_blank. cbv zeta. intros H. apply orb_true_iff in H as [H|H].
  - apply andb_true_iff in H as [_ H]. apply Nat.leb_le in H.
    revert H. generalize (nat_of_ascii c). lia.
  - apply Nat.eqb_eq in H. revert H. generalize (nat_of_ascii c). lia.
Qed.

Lemma strip_ascii s : Py.is_ascii (Py.strip s) = true -> Py.is_ascii s = true.
Proof.
  intros H. apply is_ascii_Forall in H. apply is_ascii_Forall.
  unfold Py.strip in H. rewrite list_ascii_of_string_of_list_ascii in H.
  apply List.Forall_rev in H. rewrite rev_involutive in H.
  apply (lstrip_Forall _ _ is_blank_ascii) in H.
  apply List.Forall_rev in H. rewrite rev_involutive in H.
  by apply (lstrip_Forall _ _ is_blank_ascii) in H.
Qed.

(** A string that [int] reads has ASCII characters only. *)
Lemma int_ascii s h : Py.int s = Some h -> Py.is_ascii s = true.
Proof.
  intros H. apply strip_ascii. unfold Py.int in H.
  destruct (Py.strip s) as [|c t]; [discriminate|].
  destruct c as [[] [] [] [] [] [] [] []];
    try (by eapply digits_ascii).
  all: destruct (Py.digits t 0 false) as [v|] eqn:E; [|discriminate].
  all: apply is_ascii_Forall; simpl.
  all: constructor; [by apply Nat.ltb_lt|apply is_ascii_Forall; by eapply digits_ascii].
Qed.

Lemma int_with_int other s h :
  Py.int s = Some h -> Py.int_with None other s = Some h.
Proof.
  intros H. unfold Py.int_with. by rewrite (int_ascii s h H).
Qed.

(** ** Tokens *)

Lemma string_app_cons x (a b : string) : String x a ++ b = String x (a ++ b).
Proof. reflexivity. Qed.

Lemma string_app_nil_l (a : string) : "" ++ a = a.
Proof. reflexivity. Qed.

Ltac app_simpl := rewrite ?string_app_cons, ?string_app_nil_l.

Lemma string_app_assoc (a b c : string) : (a ++ b) ++ c = a ++ (b ++ c).
Proof. induction a as [|x a IH]; [reflexivity|]. app_simpl. by rewrite IH. Qed.

Lemma string_app_nil_r (a : string) : a ++ "" = a.
Proof. induction a as [|x a IH]; [reflexivity|]. app_simpl. by rewrite IH. Qed.

Lemma string_of_list_ascii_app l1 l2 :
  string_of_list_ascii (l1 ++ l2)%list
  = string_of_list_ascii l1 ++ string_of_list_ascii l2.
Proof. induction l1 as [|x l1 IH]; [reflexivity|]. simpl. app_simpl. by rewrite IH. Qed.

Ltac byte_facts :=
  unfold Py.is_space, Py.is_space2, Py.is_space3, Py.is_continuation;
  cbv zeta;
  repeat (rewrite andb_true_iff || rewrite orb_true_iff);
  rewrite ?Nat.eqb_eq, ?Nat.leb_le, ?Nat.ltb_lt.

(** The first byte of a separator starts a character, the others continue
    one. *)
Lemma is_space_first a : Py.is_space a = true -> Py.is_continuation a = false.
Proof.
  intros H. apply not_true_iff_false. revert H. byte_facts.
  generalize (nat_of_ascii a). lia.
Qed.

Lemma is_space2_bytes a b :
  Py.is_space2 a b = true ->
  Py.is_continuation a = false ∧ Py.is_continuation b = true.
Proof.
  intros H. rewrite <- not_true_iff_false. revert H. byte_facts.
  generalize (nat_of_ascii a) (nat_of_ascii b). lia.
Qed.

Lemma is_space3_bytes a b c :
  Py.is_space3 a b c = true ->
  Py.is_continuation a = false
  ∧ Py.is_continuation b = true ∧ Py.is_continuation c = true.
Proof.
  intros H. rewrite <- not_true_iff_false. revert H. byte_facts.
  generalize (nat_of_ascii a) (nat_of_ascii b) (nat_of_ascii c). lia.
Qed.

(** A separator at the head of [x] is the separator at the head of
    [x ++ y]. *)
Lemma space_len_app x y :
  Py.space_len x ≠ 0%nat -> Py.space_len (x ++ y) = Py.space_len x.
Proof.
  destruct x as [|a [|b [|c x]]]; app_simpl; simpl; try done.
  - destruct (Py.is_space a); done.
  - destruct (Py.is_space a); [done|]. destruct (Py.is_space2 a b); done.
Qed.

(** No separator starts inside [x] and ends inside [y] when [y] starts at
    the first byte of a character. *)
Lemma space_len_clean x y :
  Py.space_len x = 0%nat -> x ≠ "" -> Py.starts_clean y = true ->
  Py.space_len (x ++ y) = 0%nat.
Proof.
  intros Hx Hne Hy.
  assert (H2 : ∀ a b, Py.is_space2 a b = true -> Py.is_continuation b = true).
  { intros a b H. by apply is_space2_bytes in H as [_ H]. }
  assert (H3 : ∀ a b c, Py.is_space3 a b c = true ->
                        Py.is_continuation b = true ∧ Py.is_continuation c = true).
  { intros a b c H. by apply is_space3_bytes in H as [_ H]. }
  destruct x as [|a [|b [|c x]]]; [done| | |]; app_simpl; simpl in Hx |- *.
  - destruct (Py.is_space a); [done|].
    destruct y as [|b [|c y]]; simpl in Hy |- *; [done| |].
    + destruct (Py.is_space2 a b) eqn:E; [|done].
      apply H2 in E. by rewrite E in Hy.
    + destruct (Py.is_space2 a b) eqn:E; [apply H2 in E; by rewrite E in Hy|].
      destruct (Py.is_space3 a b c) eqn:E3; [|done].
      apply H3 in E3 as [E3 _]. by rewrite E3 in Hy.
  - destruct (Py.is_space a); [done|]. destruct (Py.is_space2 a b); [done|].
    destruct y as [|c y]; simpl in Hy |- *; [done|].
    destruct (Py.is_space3 a b c) eqn:E3; [|done].
    apply H3 in E3 as [_ E3]. by rewrite E3 in Hy.
  - exact Hx.
Qed.

(** A byte that starts no separator joins the token being read. *)
Lemma split_go_byte cur a r :
  Py.space_len (String a r) = 0%nat ->
  Py.split_go cur (String a r) = Py.split_go (a :: cur) r.
Proof.
  destruct r as [|b [|c r]]; simpl.
  - by destruct (Py.is_space a).
  - destruct (Py.is_space a); [done|]. by destruct (Py.is_space2 a b).
  - destruct (Py.is_space a); [done|]. destruct (Py.is_space2 a b); [done|].
    by destruct (Py.is_space3 a b c).
Qed.

(** Each separator ends the token being read, starts at the first byte of a
    character and is as long as [space_len] says. *)
Lemma whitespace_splits w :
  In w Py.whitespace ->
  w ≠ ""
  ∧ ∀ rest,
      Py.starts_clean (w ++ rest) = true
      ∧ Py.space_len (w ++ rest) = String.length w
      ∧ ∀ cur, Py.split_go cur (w ++ rest) = Py.flush cur (Py.split_go [] rest).
Proof.
  intros H. vm_compute in H.
  repeat (destruct H as [<-|H]; [split; [done|]; intros rest; repeat split|]).
  destruct H.
Qed.

Ltac byte_cases :=
  repeat match goal with
         | H : _ ∧ _ |- _ => destruct H
         | H : _ ∨ _ |- _ => destruct H
         end.

(** The separators that [split_go] recognises are those of [whitespace],
    and no others. *)
Lemma space_len_whitespace s :
  Py.space_len s ≠ 0%nat -> ∃ w rest, In w Py.whitespace ∧ s = w ++ rest.
Proof.
  assert (Hlow : ∀ n, (9 <= n)%nat -> (n <= 13)%nat ->
                 n = 9%nat ∨ n = 10%nat ∨ n = 11%nat ∨ n = 12%nat ∨ n = 13%nat)
    by lia.
  assert (Hsep : ∀ n, (28 <= n)%nat -> (n <= 32)%nat ->
                 n = 28%nat ∨ n = 29%nat ∨ n = 30%nat ∨ n = 31%nat ∨ n = 32%nat)
    by lia.
  assert (Hgen : ∀ n, (128 <= n)%nat -> (n <= 138)%nat ->
                 n = 128%nat ∨ n = 129%nat ∨ n = 130%nat ∨ n = 131%nat
                 ∨ n = 132%nat ∨ n = 133%nat ∨ n = 134%nat ∨ n = 135%nat
                 ∨ n = 136%nat ∨ n = 137%nat ∨ n = 138%nat)
    by lia.
  destruct s as [|a r]; [done|]. simpl.
  destruct (Py.is_space a) eqn:Ea.
  { intros _. exists (String a ""), r. split; [|reflexivity].
    rewrite <- (ascii_nat_embedding a). revert Ea. byte_facts.
    generalize (nat_of_ascii a). intros n H.
    destruct H as [[H1 H2]|[H1 H2]];
      [pose proof (Hlow n H1 H2) as H|pose proof (Hsep n H1 H2) as H];
      clear Hlow Hsep Hgen H1 H2; byte_cases; subst n; vm_compute; tauto. }
  destruct r as [|b r2]; [done|].
  destruct (Py.is_space2 a b) eqn:E2.
  { intros _. exists (String a (String b "")), r2. split; [|reflexivity].
    rewrite <- (ascii_nat_embedding a), <- (ascii_nat_embedding b).
    revert E2. byte_facts. generalize (nat_of_ascii a) (nat_of_ascii b).
    intros x y H. clear Hlow Hsep Hgen. byte_cases; subst x y; vm_compute; tauto. }
  destruct r2 as [|c r3]; [done|].
  destruct (Py.is_space3 a b c) eqn:E3; [|done].
  intros _. exists (String a (String b (String c ""))), r3. split; [|reflexivity].
  rewrite <- (ascii_nat_embedding a), <- (ascii_nat_embedding b),
    <- (ascii_nat_embedding c).
  revert E3. byte_facts.
  generalize (nat_of_ascii a) (nat_of_ascii b) (nat_of_ascii c).
  intros x y z H. clear Hlow Hsep.
  destruct H as [[[H|H]|H]|H].
  - clear Hgen. byte_cases; subst x y z; vm_compute; tauto.
  - destruct H as [[Hx Hy] [[[[H1 H2]|H]|H]|H]].
    + pose proof (Hgen z H1 H2) as H. clear Hgen H1 H2.
      byte_cases; subst x y z; vm_compute; tauto.
    + subst x y z; vm_compute; tauto.
    + subst x y z; vm_compute; tauto.
    + subst x y z; vm_compute; tauto.
  - clear Hgen. byte_cases; subst x y z; vm_compute; tauto.
  - clear Hgen. byte_cases; subst x y z; vm_compute; tauto.
Qed.

Lemma no_space_suffix x : ∀ r, Py.no_space (x ++ r) = true -> Py.no_space r = true.
Proof.
  induction x as [|c x IH]; intros r H; [exact H|].
  rewrite string_app_cons in H.
  change (Py.no_space (String c (x ++ r)))
    with ((Py.space_len (String c (x ++ r)) =? 0)%nat && Py.no_space (x ++ r)) in H.
  apply andb_true_iff in H as [_ H]. by apply IH.
Qed.

Lemma no_space_head s : Py.no_space s = true -> Py.space_len s = 0%nat.
Proof.
  destruct s as [|c r]; [reflexivity|].
  change (Py.no_space (String c r))
    with ((Py.space_len (String c r) =? 0)%nat && Py.no_space r).
  intros H. apply andb_true_iff in H as [H _]. by apply Nat.eqb_eq.
Qed.

(** [no_space s]: no separator occurs in [s]. *)
Lemma no_space_spec s :
  Py.no_space s = true
  ↔ ∀ x w y, In w Py.whitespace -> s ≠ x ++ w ++ y.
Proof.
  split.
  - intros H x w y Hw ->. apply no_space_suffix, no_space_head in H.
    destruct (whitespace_splits w Hw) as [Hne Hsplits].
    destruct (Hsplits y) as (_ & Hlen & _). rewrite Hlen in H.
    by destruct w.
  - induction s as [|c r IH]; intros H; [reflexivity|].
    change (Py.no_space (String c r))
      with ((Py.space_len (String c r) =? 0)%nat && Py.no_space r).
    apply andb_true_iff. split.
    + apply Nat.eqb_eq.
      destruct (decide (Py.space_len (String c r) = 0%nat)) as [E|E]; [exact E|].
      destruct (space_len_whitespace _ E) as (w & rest & Hw & Heq).
      by destruct (H "" w rest Hw).
    + apply IH. intros x w y Hw ->. by apply (H (String c x) w y Hw).
Qed.

Lemma split_go_token a : ∀ cur rest,
  Py.no_space a = true -> Py.starts_clean rest = true ->
  Py.split_go cur (a ++ rest)
  = Py.split_go (rev (list_ascii_of_string a) ++ cur)%list rest.
Proof.
  induction a as [|c r IH]; intros cur rest Ha Hrest; [reflexivity|].
  change (Py.no_space (String c r))
    with ((Py.space_len (String c r) =? 0)%nat && Py.no_space r) in Ha.
  apply andb_true_iff in Ha as [Hc Hr]. apply Nat.eqb_eq in Hc.
  app_simpl. rewrite split_go_byte.
  - rewrite IH by done. simpl. by rewrite <- app_assoc.
  - by apply (space_len_clean (String c r) rest).
Qed.

Lemma blank_run_splits sep :
  Py.blank_run sep ->
  ∀ rest,
    Py.starts_clean (sep ++ rest) = true
    ∧ ∀ cur, Py.split_go cur (sep ++ rest) = Py.flush cur (Py.split_go [] rest).
Proof.
  induction 1 as [w Hw|w s Hw Hs IH]; intros rest.
  - destruct (whitespace_splits w Hw) as [_ H]. destruct (H rest) as (? & _ & ?). done.
  - destruct (whitespace_splits w Hw) as [_ H]. rewrite string_app_assoc.
    destruct (H (s ++ rest)) as (Hclean & _ & Hsplit). split; [exact Hclean|].
    intros cur. rewrite Hsplit. by rewrite (proj2 (IH rest) []).
Qed.

Lemma flush_token a l :
  a ≠ "" -> Py.flush (rev (list_ascii_of_string a) ++ [])%list l = a :: l.
Proof.
  intros Hne. rewrite app_nil_r. unfold Py.flush.
  destruct (rev (list_ascii_of_string a)) as [|c0 l0] eqn:E.
  - destruct a as [|c r]; [done|]. simpl in E. by apply app_eq_nil in E as [_ E].
  - by rewrite <- E, rev_involutive, string_of_list_ascii_of_string.
Qed.

Lemma ends_token_splits tail :
  Py.ends_token tail ->
  Py.starts_clean tail = true
  ∧ ∀ cur, ∃ more, Py.split_go cur tail = Py.flush cur more.
Proof.
  intros [-> | (w & rest & Hw & ->)].
  - split; [reflexivity|]. intros cur. by exists [].
  - destruct (whitespace_splits w Hw) as [_ H].
    destruct (H rest) as (Hclean & _ & Hsplit). split; [exact Hclean|].
    intros cur. eexists. apply Hsplit.
Qed.

(** A command word, a run of separators, an argument and whatever follows
    from the next separator on: the first two tokens are the command word
    and the argument. *)
Lemma split_command_argument cmd sep u tail :
  Py.no_space cmd = true -> cmd ≠ "" ->
  Py.blank_run sep ->
  Py.no_space u = true -> u ≠ "" ->
  Py.ends_token tail ->
  ∃ more, Py.split (cmd ++ sep ++ u ++ tail) = cmd :: u :: more.
Proof.
  intros Hcmd Hcne Hsep Hu Hune Htail.
  destruct (blank_run_splits sep Hsep (u ++ tail)) as [Hclean Hsplit].
  destruct (ends_token_splits tail Htail) as [Htclean Htsplit].
  destruct (Htsplit (rev (list_ascii_of_string u) ++ [])%list) as [more Hmore].
  exists more. unfold Py.split.
  rewrite split_go_token by done. rewrite Hsplit, flush_token by done.
  rewrite split_go_token by done. by rewrite Hmore, flush_token.
Qed.

(** A command word alone, or followed by separators only, is the one
    token. *)
Lemma split_command_only_token cmd sep :
  Py.no_space cmd = true -> cmd ≠ "" ->
  sep = "" ∨ Py.blank_run sep ->
  Py.split (cmd ++ sep) = [cmd].
Proof.
  intros Hcmd Hcne [-> | Hsep]; unfold Py.split.
  - rewrite split_go_token by done. simpl. by apply flush_token.
  - destruct (blank_run_splits sep Hsep "") as [Hclean Hsplit].
    rewrite string_app_nil_r in Hclean, Hsplit.
    rewrite split_go_token by done. rewrite Hsplit. simpl. by apply flush_token.
Qed.

Lemma ctx_ok_token cur : ∀ q s,
  ctx_ok cur (q ++ s) -> Py.no_space q = true ->
  Py.no_space (string_of_list_ascii (rev cur) ++ q) = true.
Proof.
  induction cur as [|c cur IH]; intros q s Hctx Hq; [exact Hq|].
  destruct Hctx as [Hc Hctx]. simpl rev.
  rewrite string_of_list_ascii_app, string_app_assoc. simpl.
  apply (IH (String c q) s Hctx).
  change (Py.no_space (String c q))
    with ((Py.space_len (String c q) =? 0)%nat && Py.no_space q).
  rewrite Hq, andb_true_r. apply Nat.eqb_eq.
  destruct (decide (Py.space_len (String c q) = 0%nat)) as [E|E]; [exact E|].
  pose proof (space_len_app (String c q) s E) as H.
  rewrite string_app_cons in H. congruence.
Qed.

Lemma flush_tokens cur s l :
  ctx_ok cur s ->
  Forall (fun t => Py.no_space t = true ∧ t ≠ "") l ->
  Forall (fun t => Py.no_space t = true ∧ t ≠ "") (Py.flush cur l).
Proof.
  intros Hctx Hl. destruct cur as [|c cur]; [exact Hl|].
  unfold Py.flush. constructor; [|exact Hl]. split.
  - rewrite <- (string_app_nil_r (string_of_list_ascii _)).
    by apply (ctx_ok_token (c :: cur) "" s).
  - simpl. rewrite string_of_list_ascii_app. by destruct (string_of_list_ascii (rev cur)).
Qed.

Lemma split_go_eq cur a r :
  Py.split_go cur (String a r)
  = if Py.is_space a then Py.flush cur (Py.split_go [] r)
    else
      match r with
      | EmptyString => Py.split_go (a :: cur) r
      | String b r2 =>
          if Py.is_space2 a b then Py.flush cur (Py.split_go [] r2)
          else
            match r2 with
            | EmptyString => Py.split_go (a :: cur) r
            | String c r3 =>
                if Py.is_space3 a b c then Py.flush cur (Py.split_go [] r3)
                else Py.split_go (a :: cur) r
            end
      end.
Proof. destruct r as [|b [|c r3]]; reflexivity. Qed.

(** Every token of [s.split()] is non-empty and holds no separator. *)
Lemma split_go_tokens n : ∀ s cur,
  (String.length s <= n)%nat -> ctx_ok cur s ->
  Forall (fun t => Py.no_space t = true ∧ t ≠ "") (Py.split_go cur s).
Proof.
  induction n as [|n IH]; intros s cur Hlen Hctx.
  - destruct s; [|simpl in Hlen; lia]. by apply (flush_tokens cur "").
  - destruct s as [|a r]; [by apply (flush_tokens cur "")|].
    simpl in Hlen.
    assert (Hnew : ∀ s', (String.length s' <= n)%nat ->
                    Forall (fun t => Py.no_space t = true ∧ t ≠ "")
                      (Py.flush cur (Py.split_go [] s'))).
    { intros s' Hs'. apply (flush_tokens cur (String a r)); [exact Hctx|].
      by apply IH. }
    assert (Hstep : Py.space_len (String a r) = 0%nat ->
                    Forall (fun t => Py.no_space t = true ∧ t ≠ "")
                      (Py.split_go (a :: cur) r)).
    { intros E. apply IH; [lia|]. by split. }
    rewrite split_go_eq. unfold Py.space_len in Hstep.
    destruct (Py.is_space a); [apply Hnew; lia|].
    destruct r as [|b r2]; [by apply Hstep|]. simpl in Hlen.
    destruct (Py.is_space2 a b); [apply Hnew; lia|].
    destruct r2 as [|c r3]; [by apply Hstep|]. simpl in Hlen.
    destruct (Py.is_space3 a b c); [apply Hnew; lia|]. by apply Hstep.
Qed.

Lemma second_token_unbroken s u :
  Py.split s !! 1%nat = Some u -> Py.no_space u = true ∧ u ≠ "".
Proof.
  intros H. apply list_elem_of_lookup_2 in H.
  pose proof (split_go_tokens (String.length s) s [] (le_n _) I) as Hall.
  rewrite List.Forall_forall in Hall. apply Hall. by apply list_elem_of_In.
Qed.

(** An ASCII character that is no separator starts none. *)
Lemma space_len_plain a r :
  (nat_of_ascii a < 128)%nat -> Py.is_space a = false ->
  Py.space_len (String a r) = 0%nat.
Proof.
  intros Ha Hs.
  assert (H2 : ∀ b, Py.is_space2 a b = false).
  { intros b. apply not_true_iff_false. revert Ha. byte_facts.
    generalize (nat_of_ascii a) (nat_of_ascii b). lia. }
  assert (H3 : ∀ b c, Py.is_space3 a b c = false).
  { intros b c. apply not_true_iff_false. revert Ha. byte_facts.
    generalize (nat_of_ascii a) (nat_of_ascii b) (nat_of_ascii c). lia. }
  simpl. rewrite Hs. destruct r as [|b [|c r]]; [done| |].
  - by rewrite H2.
  - by rewrite H2, H3.
Qed.

Lemma no_space_plain s :
  Forall (fun c => (nat_of_ascii c < 128)%nat ∧ Py.is_space c = false)
         (list_ascii_of_string s) ->
  Py.no_space s = true.
Proof.
  induction s as [|c r IH]; intros H; [reflexivity|].
  simpl in H. inversion H as [|? ? [Hc Hs] Hr]; subst.
  change (Py.no_space (String c r))
    with ((Py.space_len (String c r) =? 0)%nat && Py.no_space r).
  rewrite (space_len_plain c r Hc Hs). by apply IH.
Qed.

Lemma uint_chars u :
  Forall (fun c => ((nat_of_ascii c < 128)%nat ∧ Py.is_space c = false)
                   ∧ c ≠ ","%char)
         (list_ascii_of_string (NilEmpty.string_of_uint u)).
Proof.
  induction u; simpl; constructor; try assumption;
    (split; [split; [by apply Nat.ltb_lt|reflexivity]|done]).
Qed.

Lemma str_int_chars z :
  Forall (fun c => ((nat_of_ascii c < 128)%nat ∧ Py.is_space c = false)
                   ∧ c ≠ ","%char)
         (list_ascii_of_string (Py.str_int z))
  ∧ Py.str_int z ≠ "".
Proof.
  destruct z as [|p|p].
  - split; [|done]. constructor; [|constructor].
    split; [split; [by apply Nat.ltb_lt|reflexivity]|done].
  - change (Py.str_int (Z.pos p)) with (NilZero.string_of_uint (Pos.to_uint p)).
    pose proof (Unsigned.to_uint_nonnil p) as Hnil.
    rewrite string_of_uint_nonnil by exact Hnil.
    split; [apply uint_chars|]. by destruct (Pos.to_uint p).
  - change (Py.str_int (Z.neg p))
      with (String "-" (NilZero.string_of_uint (Pos.to_uint p))).
    pose proof (Unsigned.to_uint_nonnil p) as Hnil.
    rewrite string_of_uint_nonnil by exact Hnil.
    split; [|done]. simpl. constructor; [|apply uint_chars].
    split; [split; [by apply Nat.ltb_lt|reflexivity]|done].
Qed.

Lemma str_int_no_space z : Py.no_space (Py.str_int z) = true.
Proof.
  apply no_space_plain. eapply List.Forall_impl; [|apply (str_int_chars z)].
  by intros c [Hc _].
Qed.

Lemma str_int_ascii z : Py.is_ascii (Py.str_int z) = true.
Proof.
  apply is_ascii_Forall. eapply List.Forall_impl; [|apply (str_int_chars z)].
  by intros c [[Hc _] _].
Qed.

(** ** Basic facts about runs *)

Ltac run_unfold :=
  unfold mbind, run_bind, mret, run_ret, bind, ret, raise, try_except, emit,
    get, modify, state_after, trace_of, result_of in *.

Ltac run_simpl := run_unfold; simpl in *.

(** Case analysis on the outcome of the calls to the client. *)
Ltac case_replies :=
  repeat match goal with
    | |- context [if reply_to ?w ?m ?b then _ else _] =>
        destruct (reply_to w m b); simpl
    | |- context [if send_message ?w ?c ?b then _ else _] =>
        destruct (send_message w c b); simpl
    end.

Lemma bind_ret {A B} (a : A) (k : A -> Run B) st : bind (ret a) k st = k a st.
Proof. unfold bind, ret. by destruct (k a st) as [[res st2] t2]. Qed.

Lemma bind_modify {B} f (k : unit -> Run B) st : bind (modify f) k st = k tt (f st).
Proof. unfold bind, modify. by destruct (k tt (f st)) as [[res st2] t2]. Qed.

Lemma bind_get {B} (k : State -> Run B) st : bind get k st = k st st.
Proof. unfold bind, get. by destruct (k st st) as [[res st2] t2]. Qed.

Lemma state_after_bind {A B} (m : Run A) (k : A -> Run B) st :
  state_after (bind m k st)
  = match result_of (m st) with
    | Ret a => state_after (k a (state_after (m st)))
    | Raise _ => state_after (m st)
    end.
Proof.
  unfold bind, state_after, result_of.
  destruct (m st) as [[res st1] t1]. simpl.
  destruct res as [a|e]; [|reflexivity].
  by destruct (k a st1) as [[res2 st2] t2].
Qed.

Lemma is_group_admin_run cfg w message st :
  ∃ t, is_group_admin w message st
       = (Ret (is_group_chat message
               && match get_chat_administrators w (chat_id message) with
                  | Some admins => bool_decide (from_user_id message ∈ admins)
                  | None => false
                  end), st, t)
       ∧ replies t = [] ∧ sent_to t = [] ∧ sleeps t = []
       ∧ (authorized cfg w message = true -> is_admin cfg (from_user_id message) = false -> t = []).
Proof.
  unfold is_group_admin, authorized, is_group_chat, bot_get_chat_administrators.
  destruct (chat_type message); run_simpl;
    try (eexists; repeat split; reflexivity).
  all: destruct (get_chat_administrators w (chat_id message)) as [admins|]; simpl;
    eexists; repeat split; try reflexivity.
  all: intros Hauth Hadm; rewrite Hadm in Hauth; simpl in Hauth; discriminate.
Qed.

Lemma is_admin_or_group_admin_run cfg w message st :
  ∃ t, is_admin_or_group_admin cfg w message st = (Ret (authorized cfg w message), st, t)
       ∧ replies t = [] ∧ sent_to t = [] ∧ sleeps t = []
       ∧ (authorized cfg w message = true -> t = []).
Proof.
  unfold is_admin_or_group_admin.
  destruct (is_admin cfg (from_user_id message)) eqn:Hadm.
  - exists []. unfold authorized. rewrite Hadm. run_simpl. repeat split; reflexivity.
  - destruct (is_group_admin_run cfg w message st) as (t & Hrun & Hr & Hs & Hsl & Ht).
    exists t. rewrite Hrun. unfold authorized at 1. rewrite Hadm. simpl.
    repeat split; auto.
Qed.

Lemma not_authorized cfg w message :
  is_admin cfg (from_user_id message) = false ->
  not_chat_admin w message ->
  authorized cfg w message = false.
Proof.
  intros Hadm Hnot. unfold authorized. rewrite Hadm. simpl.
  destruct (is_group_chat message); [|reflexivity]. simpl.
  destruct (get_chat_administrators w (chat_id message)) as [admins|] eqn:E; [|reflexivity].
  apply bool_decide_eq_false. apply Hnot. exact E.
Qed.

(** ** The admin commands *)

Lemma second_token_run message st :
  second_token message st
  = (match Py.split (text message) !! 1%nat with
     | Some u => Ret u
     | None => Raise IndexError
     end, st, []).
Proof.
  unfold second_token. destruct (Py.split (text message) !! 1%nat); reflexivity.
Qed.

Lemma reply_run w message body st :
  state_after (bot_reply_to w message body st) = st
  ∧ trace_of (bot_reply_to w message body st) = [ReplyTo (chat_id message) body].
Proof. split; reflexivity. Qed.

(** The whole behaviour of an authorized [/setlink]: the URL is the second
    token of the text. *)
Lemma set_link_authorized cfg w message st :
  authorized cfg w message = true ->
  let r := set_link cfg w message st in
  match Py.split (text message) !! 1%nat with
  | Some u =>
      if Py.startswith_http u then
        state_after r
        = with_GROUP_INFO (alter (set_info_link (Some u)) (chat_id message))
            (with_GROUP_LINKS <[chat_id message := u]> st)
        ∧ trace_of r = [ReplyTo (chat_id message) ("✅ Link updated to:" ++ nl ++ u)]
      else state_after r = st ∧ trace_of r = [ReplyTo (chat_id message) setlink_usage]
  | None => state_after r = st ∧ trace_of r = [ReplyTo (chat_id message) setlink_usage]
  end.
Proof.
  intros Hauth r. subst r. unfold set_link.
  destruct (is_admin_or_group_admin_run cfg w message st) as (t & Hrun & _ & _ & _ & Ht).
  specialize (Ht Hauth). subst t.
  run_unfold. rewrite Hrun, Hauth. simpl. rewrite second_token_run.
  destruct (Py.split (text message) !! 1%nat) as [u|]; simpl.
  - destruct (Py.startswith_http u); simpl; case_replies; split; reflexivity.
  - case_replies; split; reflexivity.
Qed.

(** C3: the text of an authorized [/setlink] is a command word, then
    either nothing but whitespace, or a run of whitespace and the argument,
    which ends with the text or at the next whitespace character.  When the
    argument is missing, or does not start with [http://] or [https://], the
    command answers with the usage line and leaves the whole state, hence
    [get_link] of every chat, unchanged; otherwise the argument, and nothing
    of what follows it, becomes the link of the chat. *)
Theorem set_link_argument cfg w message st cmd sep (argument : option string) tail :
  authorized cfg w message = true ->
  Py.no_space cmd = true -> cmd ≠ "" ->
  match argument with
  | Some u =>
      Py.blank_run sep ∧ Py.no_space u = true ∧ u ≠ "" ∧ Py.ends_token tail
      ∧ text message = cmd ++ sep ++ u ++ tail
  | None => (sep = "" ∨ Py.blank_run sep) ∧ text message = cmd ++ sep
  end ->
  let r := set_link cfg w message st in
  match argument with
  | Some u =>
      if Py.startswith_http u then
        get_link cfg (state_after r) (chat_id message) = Some u
        ∧ trace_of r = [ReplyTo (chat_id message) ("✅ Link updated to:" ++ nl ++ u)]
      else
        state_after r = st
        ∧ trace_of r = [ReplyTo (chat_id message) setlink_usage]
        ∧ ∀ chat, get_link cfg (state_after r) chat = get_link cfg st chat
  | None =>
      state_after r = st
      ∧ trace_of r = [ReplyTo (chat_id message) setlink_usage]
      ∧ ∀ chat, get_link cfg (state_after r) chat = get_link cfg st chat
  end.
Proof.
  intros Hauth Hcmd Hcne Htext r.
  pose proof (set_link_authorized cfg w message st Hauth) as H.
  cbv zeta in H. fold r in H.
  destruct argument as [u|].
  - destruct Htext as (Hsep & Hu & Hune & Htail & Htext).
    destruct (split_command_argument cmd sep u tail) as [more Hsplit]; try done.
    rewrite Htext, Hsplit in H. simpl in H.
    destruct (Py.startswith_http u).
    + destruct H as [H Htr]. split; [|exact Htr]. rewrite H. unfold get_link. simpl.
      by rewrite lookup_insert_eq.
    + destruct H as [H1 H2]. repeat split; auto. intros chat. by rewrite H1.
  - destruct Htext as [Hsep Htext].
    rewrite Htext, split_command_only_token in H by done. simpl in H.
    destruct H as [H1 H2]. repeat split; auto. intros chat. by rewrite H1.
Qed.

Lemma set_link_argument_witness :
  let nbsp := Py.utf8 160 in
  let accepted :=
    Sample.command 7 Group 2 ("/setlink" ++ nbsp ++ "https://a.example" ++ " and more") in
  let rejected := Sample.command 7 Group 2 ("/setlink" ++ " " ++ "ftp://a.example" ++ "") in
  let missing := Sample.command 7 Group 2 ("/setlink" ++ " ") in
  (get_link Sample.cfg
     (state_after (set_link Sample.cfg Sample.world accepted Sample.start)) 7
   = Some "https://a.example"
   ∧ trace_of (set_link Sample.cfg Sample.world accepted Sample.start)
     = [ReplyTo 7 ("✅ Link updated to:" ++ nl ++ "https://a.example")])
  ∧ (state_after (set_link Sample.cfg Sample.world rejected Sample.start) = Sample.start
     ∧ trace_of (set_link Sample.cfg Sample.world rejected Sample.start)
       = [ReplyTo 7 setlink_usage]
     ∧ ∀ chat,
         get_link Sample.cfg
           (state_after (set_link Sample.cfg Sample.world rejected Sample.start)) chat
         = get_link Sample.cfg Sample.start chat)
  ∧ (state_after (set_link Sample.cfg Sample.world missing Sample.start) = Sample.start
     ∧ trace_of (set_link Sample.cfg Sample.world missing Sample.start)
       = [ReplyTo 7 setlink_usage]
     ∧ ∀ chat,
         get_link Sample.cfg
           (state_after (set_link Sample.cfg Sample.world missing Sample.start)) chat
         = get_link Sample.cfg Sample.start chat).
Proof.
  assert (Hin : ∀ cp, In cp Py.whitespace_code_points -> Py.blank_run (Py.utf8 cp)).
  { intros cp H. apply Py.blank_run_one. by apply in_map. }
  split; [|split].
  - apply (set_link_argument Sample.cfg Sample.world
             (Sample.command 7 Group 2
                ("/setlink" ++ Py.utf8 160 ++ "https://a.example" ++ " and more"))
             Sample.start "/setlink" (Py.utf8 160) (Some "https://a.example") " and more");
      [reflexivity|reflexivity|discriminate|].
    split; [apply Hin; vm_compute; tauto|].
    split; [reflexivity|]. split; [discriminate|]. split; [|reflexivity].
    right. exists " ", "and more". split; [vm_compute; tauto|reflexivity].
  - apply (set_link_argument Sample.cfg Sample.world
             (Sample.command 7 Group 2 ("/setlink" ++ " " ++ "ftp://a.example" ++ ""))
             Sample.start "/setlink" " " (Some "ftp://a.example") "");
      [reflexivity|reflexivity|discriminate|].
    split; [apply (Hin 32%N); vm_compute; tauto|].
    split; [reflexivity|]. split; [discriminate|]. split; [by left|reflexivity].
  - apply (set_link_argument Sample.cfg Sample.world
             (Sample.command 7 Group 2 ("/setlink" ++ " "))
             Sample.start "/setlink" " " None "");
      [reflexivity|reflexivity|discriminate|].
    split; [|reflexivity]. right. apply (Hin 32%N). vm_compute. tauto.
Defined.

Lemma default_link_authorized cfg w message st :
  authorized cfg w message = true ->
  let r := default_link cfg w message st in
  state_after r
  = with_GROUP_INFO (alter (set_info_link (DEFAULT_LINK cfg)) (chat_id message))
      (with_GROUP_LINKS (delete (chat_id message)) st)
  ∧ trace_of r
    = [ReplyTo (chat_id message)
         ("✅ Reset to default link:" ++ nl ++ Py.str_opt (DEFAULT_LINK cfg))].
Proof.
  intros Hauth r. subst r. unfold default_link.
  destruct (is_admin_or_group_admin_run cfg w message st) as (t & Hrun & _ & _ & _ & Ht).
  specialize (Ht Hauth). subst t.
  run_unfold. rewrite Hrun, Hauth. simpl. case_replies; split; reflexivity.
Qed.

Lemma second_token_int_run w message st :
  second_token_int w message st
  = (match Py.split (text message) !! 1%nat with
     | Some tok =>
         match Py.int_with None (int_other w) tok with
         | Some hours => Ret hours
         | None => Raise ValueError
         end
     | None => Raise IndexError
     end, st, []).
Proof.
  unfold second_token_int. run_unfold. rewrite second_token_run.
  destruct (Py.split (text message) !! 1%nat) as [tok|]; [|reflexivity].
  destruct (Py.int_with None (int_other w) tok); reflexivity.
Qed.

Lemma set_interval_authorized cfg w message st :
  authorized cfg w message = true ->
  let r := set_interval cfg w message st in
  match Py.split (text message) !! 1%nat ≫= Py.int_with None (int_other w) with
  | Some hours =>
      state_after r = with_MESSAGE_INTERVAL (hours * 3600) st
      ∧ trace_of r
        = [ReplyTo (chat_id message)
             ("⏰ Posting interval set to " ++ Py.str_int hours ++ " hours")]
  | None => state_after r = st ∧ trace_of r = [ReplyTo (chat_id message) interval_usage]
  end.
Proof.
  intros Hauth r. subst r. unfold set_interval.
  destruct (is_admin_or_group_admin_run cfg w message st) as (t & Hrun & _ & _ & _ & Ht).
  specialize (Ht Hauth). subst t.
  run_unfold. rewrite Hrun, Hauth. simpl. rewrite second_token_int_run.
  destruct (Py.split (text message) !! 1%nat) as [tok|]; simpl.
  - destruct (Py.int_with None (int_other w) tok) as [hours|]; simpl;
      case_replies; split; reflexivity.
  - case_replies; split; reflexivity.
Qed.

Lemma denied_reply w message st :
  denied message st (bot_reply_to w message admin_only st).
Proof. repeat split. Qed.

Lemma denied_after_check cfg w message st (k : Run unit) :
  authorized cfg w message = false ->
  denied message st
    ((allowed ← is_admin_or_group_admin cfg w message;
      if negb allowed then bot_reply_to w message admin_only else k) st).
Proof.
  intros Hauth.
  destruct (is_admin_or_group_admin_run cfg w message st) as (t & Hrun & Hr & Hs & Hsl & _).
  run_unfold. rewrite Hrun, Hauth. simpl.
  unfold denied, state_after, trace_of, replies, sent_to, sleeps in *. simpl.
  rewrite !omap_app, Hr, Hs, Hsl. simpl.
  repeat split.
Qed.

(** C4: a caller who is neither in [ADMIN_IDS] nor reported as an
    administrator of the chat gets the fixed denial from [/setlink],
    [/defaultlink], [/interval] and [/stats], whatever the text of the
    message, and the whole state (active set, overrides, group records,
    last-broadcast times, interval) is as before. *)
Theorem admin_commands_denied cfg w message st :
  is_admin cfg (from_user_id message) = false ->
  not_chat_admin w message ->
  denied message st (set_link cfg w message st)
  ∧ denied message st (default_link cfg w message st)
  ∧ denied message st (set_interval cfg w message st)
  ∧ denied message st (show_stats cfg w message st).
Proof.
  intros Hadm Hnot.
  pose proof (not_authorized cfg w message Hadm Hnot) as Hauth.
  repeat split_and; try (by apply denied_after_check).
  unfold show_stats. rewrite Hadm. simpl. apply denied_reply.
Qed.

Lemma admin_commands_denied_witness :
  let message := Sample.command 7 Group 3 "/setlink https://evil.example" in
  denied message Sample.start (set_link Sample.cfg Sample.world message Sample.start)
  ∧ denied message Sample.start (default_link Sample.cfg Sample.world message Sample.start)
  ∧ denied message Sample.start (set_interval Sample.cfg Sample.world message Sample.start)
  ∧ denied message Sample.start (show_stats Sample.cfg Sample.world message Sample.start).
Proof.
  apply admin_commands_denied.
  - reflexivity.
  - intros admins Hadmins. injection Hadmins as <-.
    intros Hin. apply list_elem_of_In in Hin. simpl in Hin. lia.
Defined.

(** C6: an authorized [/setlink] with a valid URL followed by an authorized
    [/defaultlink] in the same chat leaves no override for the chat:
    [get_link] is [DEFAULT_LINK] again, and that is what [/link] shows. *)
Theorem setlink_then_defaultlink cfg w1 w2 w3 m1 m2 m3 st u :
  authorized cfg w1 m1 = true ->
  authorized cfg w2 m2 = true ->
  chat_id m2 = chat_id m1 ->
  chat_id m3 = chat_id m1 ->
  Py.split (text m1) !! 1%nat = Some u ->
  Py.startswith_http u = true ->
  let st1 := state_after (set_link cfg w1 m1 st) in
  let st2 := state_after (default_link cfg w2 m2 st1) in
  get_link cfg st1 (chat_id m1) = Some u
  ∧ GROUP_LINKS st2 !! chat_id m1 = None
  ∧ get_link cfg st2 (chat_id m1) = DEFAULT_LINK cfg
  ∧ trace_of (show_link cfg w3 m3 st2)
    = [ReplyTo (chat_id m1) ("🔗 Current link:" ++ nl ++ Py.str_opt (DEFAULT_LINK cfg))].
Proof.
  intros Ha1 Ha2 Hc2 Hc3 Htok Hurl st1 st2.
  pose proof (set_link_authorized cfg w1 m1 st Ha1) as H1.
  cbv zeta in H1. rewrite Htok, Hurl in H1. destruct H1 as [H1 _]. fold st1 in H1.
  pose proof (default_link_authorized cfg w2 m2 st1 Ha2) as H2.
  cbv zeta in H2. destruct H2 as [H2 _]. fold st2 in H2.
  assert (Hnone : GROUP_LINKS st2 !! chat_id m1 = None).
  { rewrite H2, Hc2. simpl. apply lookup_delete_eq. }
  assert (Hget : get_link cfg st2 (chat_id m1) = DEFAULT_LINK cfg).
  { unfold get_link. by rewrite Hnone. }
  repeat split_and; auto.
  - rewrite H1. unfold get_link. simpl. by rewrite lookup_insert_eq.
  - unfold show_link. run_unfold. simpl. rewrite Hc3, Hget. reflexivity.
Qed.

Lemma setlink_then_defaultlink_witness :
  let m1 := Sample.command 7 Group 2 "/setlink https://a.example" in
  let m2 := Sample.command 7 Group 2 "/defaultlink" in
  let st2 :=
    state_after (default_link Sample.cfg Sample.world m2
                   (state_after (set_link Sample.cfg Sample.world m1 Sample.start))) in
  get_link Sample.cfg st2 7 = Some "https://default.example".
Proof.
  exact (proj1 (proj2 (proj2
    (setlink_then_defaultlink Sample.cfg Sample.world Sample.world Sample.world
       (Sample.command 7 Group 2 "/setlink https://a.example")
       (Sample.command 7 Group 2 "/defaultlink")
       (Sample.command 7 Group 5 "/link")
       Sample.start "https://a.example"
       eq_refl eq_refl eq_refl eq_refl eq_refl eq_refl)))).
Defined.

(** ** The broadcaster *)

Lemma send_link_to_group_run cfg w chat st :
  send_link_to_group cfg w chat st
  = if send_fails cfg w st chat then
      (Ret tt, with_ACTIVE_GROUPS (fun a => a ∖ {[chat]}) st,
       [SendMessage chat (link_message w (get_link cfg st chat));
        LogError ("Error sending to group " ++ Py.str_int chat ++ ": ")])
    else
      (Ret tt, with_LAST_MESSAGE_TIMES <[chat := now w]> st,
       [SendMessage chat (link_message w (get_link cfg st chat));
        LogInfo ("Sent link to group " ++ Py.str_int chat)]).
Proof.
  unfold send_link_to_group, send_fails, bot_send_message. run_unfold. simpl.
  destruct (send_message w chat (link_message w (get_link cfg st chat))); reflexivity.
Qed.

Lemma send_fails_ext cfg w st st' chat :
  GROUP_LINKS st' = GROUP_LINKS st ->
  send_fails cfg w st' chat = send_fails cfg w st chat.
Proof. intros H. unfold send_fails, get_link. by rewrite H. Qed.

(** A pass never raises, attempts one send per identifier of the copy, in
    the order of the copy, sleeps nowhere, and changes the state only by
    dropping from the active set the identifiers whose send failed (and by
    recording the time of the others). *)
Lemma broadcast_pass_run cfg w snapshot : ∀ st,
  let r := broadcast_pass cfg w snapshot st in
  result_of r = Ret tt
  ∧ sent_to (trace_of r) = snapshot
  ∧ sleeps (trace_of r) = []
  ∧ replies (trace_of r) = []
  ∧ GROUP_LINKS (state_after r) = GROUP_LINKS st
  ∧ GROUP_INFO (state_after r) = GROUP_INFO st
  ∧ MESSAGE_INTERVAL (state_after r) = MESSAGE_INTERVAL st
  ∧ ∀ g, g ∈ ACTIVE_GROUPS (state_after r)
         ↔ g ∈ ACTIVE_GROUPS st ∧ ¬ (g ∈ snapshot ∧ send_fails cfg w st g = true).
Proof.
  induction snapshot as [|chat rest IH]; intros st r; subst r.
  - simpl. run_simpl. repeat split_and; try reflexivity.
    intros g. split; [intros H; split; [exact H|]|intros [H _]; exact H].
    intros [Hin _]. by apply elem_of_nil in Hin.
  - unfold broadcast_pass in *. simpl for_each.
    unfold mbind, run_bind, bind. rewrite send_link_to_group_run.
    destruct (send_fails cfg w st chat) eqn:Hfail.
    + specialize (IH (with_ACTIVE_GROUPS (fun a => a ∖ {[chat]}) st)). cbv zeta in IH.
      destruct (for_each rest (send_link_to_group cfg w) _) as [[res st2] t2].
      unfold result_of, state_after, trace_of in *. simpl in *.
      destruct IH as (Hres & Hsent & Hsl & Hrep & Hgl & Hgi & Hmi & Hact).
      repeat split_and; auto; try congruence.
      intros g. rewrite Hact. rewrite elem_of_difference, elem_of_singleton.
      rewrite elem_of_cons.
      rewrite (send_fails_ext cfg w st (with_ACTIVE_GROUPS _ st) g eq_refl).
      split.
      * intros [[Hg Hne] Hnot]. split; [exact Hg|].
        intros [[->|Hin] Hf]; [by apply Hne|]. apply Hnot. by split.
      * intros [Hg Hnot]. split; [split; [exact Hg|]|].
        -- intros ->. apply Hnot. split; [by left|exact Hfail].
        -- intros [Hin Hf]. apply Hnot. split; [by right|exact Hf].
    + specialize (IH (with_LAST_MESSAGE_TIMES <[chat := now w]> st)). cbv zeta in IH.
      destruct (for_each rest (send_link_to_group cfg w) _) as [[res st2] t2].
      unfold result_of, state_after, trace_of in *. simpl in *.
      destruct IH as (Hres & Hsent & Hsl & Hrep & Hgl & Hgi & Hmi & Hact).
      repeat split_and; auto; try congruence.
      intros g. rewrite Hact. rewrite elem_of_cons.
      rewrite (send_fails_ext cfg w st (with_LAST_MESSAGE_TIMES _ st) g eq_refl).
      split.
      * intros [Hg Hnot]. split; [exact Hg|].
        intros [[->|Hin] Hf]; [congruence|]. apply Hnot. by split.
      * intros [Hg Hnot]. split; [exact Hg|].
        intros [Hin Hf]. apply Hnot. split; [by right|exact Hf].
Qed.

Lemma time_sleep_run w secs st :
  time_sleep w secs st
  = (if (0 <=? secs) && (secs <=? sleep_max w) then Ret tt
     else if secs <? 0 then Raise ValueError else Raise OverflowError,
     st,
     if (0 <=? secs) && (secs <=? sleep_max w) then [Sleep secs] else []).
Proof.
  unfold time_sleep. run_unfold.
  destruct (secs <? 0) eqn:E1; destruct (sleep_max w <? secs) eqn:E2;
    destruct (0 <=? secs) eqn:E3; destruct (secs <=? sleep_max w) eqn:E4;
    simpl; try reflexivity; lia.
Qed.

(** A round is its pass followed by the effects of its sleep. *)
Lemma send_links_round_run cfg w st :
  let pass := broadcast_pass cfg w (list_of_set w (ACTIVE_GROUPS st)) st in
  let r := send_links_round cfg w st in
  state_after r = state_after pass
  ∧ trace_of r = (trace_of pass ++ sleep_effects w (MESSAGE_INTERVAL st))%list.
Proof.
  intros pass r. subst r. unfold send_links_round.
  pose proof (broadcast_pass_run cfg w (list_of_set w (ACTIVE_GROUPS st)) st) as H.
  cbv zeta in H. fold pass in H.
  destruct H as (Hres & _ & _ & _ & _ & _ & Hmi & _).
  run_unfold. simpl. fold pass.
  destruct pass as [[res st1] t1]. simpl in *. subst res.
  rewrite !time_sleep_run. rewrite Hmi. unfold sleep_effects.
  destruct ((0 <=? MESSAGE_INTERVAL st) && (MESSAGE_INTERVAL st <=? sleep_max w)); simpl.
  - split; reflexivity.
  - replace ((0 <=? 60) && (60 <=? sleep_max w)) with (60 <=? sleep_max w) by reflexivity.
    destruct (MESSAGE_INTERVAL st <? 0); simpl;
      destruct (60 <=? sleep_max w); simpl; rewrite ?app_nil_r; split; reflexivity.
Qed.

Lemma sleep_effects_quiet w secs :
  sent_to (sleep_effects w secs) = [] ∧ replies (sleep_effects w secs) = [].
Proof.
  unfold sleep_effects.
  destruct ((0 <=? secs) && (secs <=? sleep_max w)); [split; reflexivity|].
  destruct (60 <=? sleep_max w); split; reflexivity.
Qed.

Lemma send_links_periodically_cons cfg w later st :
  let round := send_links_round cfg w st in
  trace_of (send_links_periodically cfg (w :: later) st)
  = (trace_of round
       ++ (match result_of round with
           | Ret _ => trace_of (send_links_periodically cfg later (state_after round))
           | Raise _ => []
           end))%list.
Proof.
  intros round. subst round. simpl send_links_periodically.
  unfold mbind, run_bind, bind.
  destruct (send_links_round cfg w st) as [[res st1] t1].
  unfold trace_of, result_of, state_after. simpl.
  destruct res; [|by rewrite app_nil_r].
  by destruct (send_links_periodically cfg later st1) as [[res2 st2] t2].
Qed.

(** C2, as the code has it: every round of the loop first runs the pass
    over the copy of the active set (one send per identifier, in the order
    of the copy, no sleep inside) and then sleeps, for [MESSAGE_INTERVAL]
    when [time.sleep] accepts it; the loop is the sequence of its rounds, so
    the first pass comes before the first sleep. *)
Theorem round_is_pass_then_sleep cfg w later st :
  let snapshot := list_of_set w (ACTIVE_GROUPS st) in
  let pass := broadcast_pass cfg w snapshot st in
  let round := send_links_round cfg w st in
  sent_to (trace_of pass) = snapshot
  ∧ sleeps (trace_of pass) = []
  ∧ trace_of round = (trace_of pass ++ sleep_effects w (MESSAGE_INTERVAL st))%list
  ∧ sent_to (sleep_effects w (MESSAGE_INTERVAL st)) = []
  ∧ trace_of (send_links_periodically cfg (w :: later) st)
    = (trace_of round
         ++ (match result_of round with
             | Ret _ => trace_of (send_links_periodically cfg later (state_after round))
             | Raise _ => []
             end))%list.
Proof.
  intros snapshot pass round.
  pose proof (broadcast_pass_run cfg w snapshot st) as H. cbv zeta in H.
  destruct H as (_ & Hsent & Hsl & _).
  repeat split_and.
  - exact Hsent.
  - exact Hsl.
  - apply send_links_round_run.
  - apply sleep_effects_quiet.
  - apply send_links_periodically_cons.
Qed.

(** C2, as the claim has it, fails: started in a state where group 7 is
    active, the loop sends to group 7 first and sleeps afterwards. *)
Lemma first_pass_precedes_first_sleep :
  let st := step Sample.cfg (Update OnStart Sample.world (Sample.command 7 Group 5 "/start"))
              Sample.start in
  let t := trace_of (send_links_periodically Sample.cfg [Sample.world] st) in
  List.filter (fun e => is_send e || is_sleep e) t
  = [SendMessage 7 (link_message Sample.world (Some "https://default.example"));
     Sleep 86400]
  ∧ (is_sleep <$> head t) = Some false.
Proof. vm_compute. split; reflexivity. Qed.

(** C5: when, in a round, the send to [G] fails, the round still attempts a
    send to every identifier of its copy, those after [G] included; [G] is no
    longer in the active set afterwards, and the next round does not send to
    it. *)
Theorem failed_send_drops_group cfg w w' st before G after :
  list_of_set w (ACTIVE_GROUPS st) = (before ++ G :: after)%list ->
  send_fails cfg w st G = true ->
  set_order_ok w' ->
  let round := send_links_round cfg w st in
  let next := send_links_round cfg w' (state_after round) in
  sent_to (trace_of round) = (before ++ G :: after)%list
  ∧ (∀ g, g ∈ after -> g ∈ sent_to (trace_of round))
  ∧ (G ∉ ACTIVE_GROUPS (state_after round))
  ∧ (G ∉ sent_to (trace_of next)).
Proof.
  intros Hsnap Hfail Hok round next.
  pose proof (send_links_round_run cfg w st) as Hround. cbv zeta in Hround.
  fold round in Hround. destruct Hround as [Hst Htr].
  pose proof (broadcast_pass_run cfg w (list_of_set w (ACTIVE_GROUPS st)) st) as Hpass.
  cbv zeta in Hpass. destruct Hpass as (_ & Hsent & _ & _ & _ & _ & _ & Hact).
  assert (Hsent_round : sent_to (trace_of round) = (before ++ G :: after)%list).
  { rewrite Htr. unfold sent_to at 1. rewrite omap_app. fold (sent_to (trace_of
      (broadcast_pass cfg w (list_of_set w (ACTIVE_GROUPS st)) st))).
    fold (sent_to (sleep_effects w (MESSAGE_INTERVAL st))).
    rewrite (proj1 (sleep_effects_quiet _ _)), app_nil_r, Hsent. exact Hsnap. }
  assert (Hgone : G ∉ ACTIVE_GROUPS (state_after round)).
  { rewrite Hst. intros Hin. apply Hact in Hin. destruct Hin as [_ Hnot].
    apply Hnot. split; [|exact Hfail].
    rewrite Hsnap. apply elem_of_app. right. by left. }
  repeat split_and; auto.
  - intros g Hg. rewrite Hsent_round. apply elem_of_app. right. by right.
  - pose proof (send_links_round_run cfg w' (state_after round)) as Hnext.
    cbv zeta in Hnext. fold next in Hnext. destruct Hnext as [_ Htr'].
    pose proof (broadcast_pass_run cfg w'
      (list_of_set w' (ACTIVE_GROUPS (state_after round))) (state_after round)) as Hpass'.
    cbv zeta in Hpass'. destruct Hpass' as (_ & Hsent' & _).
    rewrite Htr'. unfold sent_to at 1. rewrite omap_app.
    fold (sent_to (sleep_effects w' (MESSAGE_INTERVAL (state_after round)))).
    rewrite (proj1 (sleep_effects_quiet _ _)), app_nil_r.
    fold (sent_to (trace_of (broadcast_pass cfg w'
      (list_of_set w' (ACTIVE_GROUPS (state_after round))) (state_after round)))).
    rewrite Hsent'. rewrite (Hok _). rewrite elem_of_elements. exact Hgone.
Qed.

Lemma failed_send_drops_group_witness :
  let round := send_links_round Sample.cfg Sample.world_9_fails Sample.three_groups in
  let next := send_links_round Sample.cfg Sample.world (state_after round) in
  sent_to (trace_of round) = [7; 9; 8]
  ∧ (∀ g, g ∈ [8] -> g ∈ sent_to (trace_of round))
  ∧ (9 ∉ ACTIVE_GROUPS (state_after round))
  ∧ (9 ∉ sent_to (trace_of next)).
Proof.
  apply (failed_send_drops_group Sample.cfg Sample.world_9_fails Sample.world
           Sample.three_groups [7] 9 [8]).
  - vm_compute. reflexivity.
  - vm_compute. reflexivity.
  - intros a. reflexivity.
Defined.

(** ** The interval *)

Lemma set_interval_token cfg w message st tok hours :
  authorized cfg w message = true ->
  Py.split (text message) !! 1%nat = Some tok ->
  Py.int tok = Some hours ->
  let r := set_interval cfg w message st in
  state_after r = with_MESSAGE_INTERVAL (hours * 3600) st
  ∧ trace_of r
    = [ReplyTo (chat_id message)
         ("⏰ Posting interval set to " ++ Py.str_int hours ++ " hours")].
Proof.
  intros Hauth Htok Hint r.
  pose proof (set_interval_authorized cfg w message st Hauth) as H. cbv zeta in H.
  rewrite Htok in H. simpl in H.
  rewrite (int_with_int (int_other w) tok hours Hint) in H. exact H.
Qed.

Lemma sleeps_round cfg w st :
  sleeps (trace_of (send_links_round cfg w st))
  = sleeps (sleep_effects w (MESSAGE_INTERVAL st)).
Proof.
  pose proof (send_links_round_run cfg w st) as H. cbv zeta in H.
  destruct H as [_ Htr]. rewrite Htr.
  pose proof (broadcast_pass_run cfg w (list_of_set w (ACTIVE_GROUPS st)) st) as Hp.
  cbv zeta in Hp. destruct Hp as (_ & _ & Hsl & _).
  unfold sleeps in *. by rewrite omap_app, Hsl.
Qed.

(** C8, as the code has it: with the environment variable unset the
    interval is 24 hours; an authorized [/interval h] whose [h] is an
    integer with [h * 3600] in the range [time.sleep] accepts (not negative,
    not above the platform's limit) sets the process-wide interval, and the
    next round of the broadcaster sleeps exactly [h * 3600] seconds. *)
Theorem interval_command_sets_sleep cfg w w' message st tok hours :
  authorized cfg w message = true ->
  Py.split (text message) !! 1%nat = Some tok ->
  Py.int tok = Some hours ->
  0 <= hours * 3600 <= sleep_max w' ->
  let st' := state_after (set_interval cfg w message st) in
  initial_MESSAGE_INTERVAL None = Some (24 * 3600)
  ∧ MESSAGE_INTERVAL st' = hours * 3600
  ∧ sleeps (trace_of (send_links_round cfg w' st')) = [hours * 3600].
Proof.
  intros Hauth Htok Hint Hrange st'.
  pose proof (set_interval_token cfg w message st tok hours Hauth Htok Hint) as H.
  cbv zeta in H. fold st' in H. destruct H as [Hst _].
  assert (Hmi : MESSAGE_INTERVAL st' = hours * 3600) by (by rewrite Hst).
  repeat split_and; auto.
  rewrite sleeps_round, Hmi. unfold sleep_effects.
  replace ((0 <=? hours * 3600) && (hours * 3600 <=? sleep_max w')) with true; [reflexivity|].
  symmetry. apply andb_true_intro. split; lia.
Qed.

Lemma interval_command_sets_sleep_witness :
  let st' := state_after (set_interval Sample.cfg Sample.world
                            (Sample.command 7 Group 2 "/interval 1") Sample.start) in
  initial_MESSAGE_INTERVAL None = Some (24 * 3600)
  ∧ MESSAGE_INTERVAL st' = 3600
  ∧ sleeps (trace_of (send_links_round Sample.cfg Sample.world st')) = [3600].
Proof.
  apply (interval_command_sets_sleep Sample.cfg Sample.world Sample.world
           (Sample.command 7 Group 2 "/interval 1") Sample.start "1" 1).
  - reflexivity.
  - reflexivity.
  - reflexivity.
  - simpl. lia.
Defined.

(** C8, as the claim has it, fails for a negative [h]: after an authorized
    [/interval -1] the interval is -3600, [time.sleep] refuses it, and the
    round sleeps 60 seconds instead. *)
Lemma negative_interval_sleeps_60 :
  let message := Sample.command 7 Group 2 "/interval -1" in
  let st' := state_after (set_interval Sample.cfg Sample.world message Sample.start) in
  authorized Sample.cfg Sample.world message = true
  ∧ Py.split (text message) !! 1%nat ≫= Py.int = Some (-1)
  ∧ MESSAGE_INTERVAL st' = -1 * 3600
  ∧ sleeps (trace_of (send_links_round Sample.cfg Sample.world st')) = [60]
  ∧ sleeps (trace_of (send_links_round Sample.cfg Sample.world st')) ≠ [-1 * 3600].
Proof. vm_compute. repeat split; discriminate. Qed.

(** C9: an authorized [/interval h] is accepted for every token that [int]
    reads as an integer, whatever its sign or size: the interval becomes
    [h * 3600], the reply reports success, and the broadcaster ends its
    next round with the sleep call on that value.  Every integer, zero and
    the negative ones included, is read from its decimal notation. *)
Theorem interval_accepts_any_integer cfg w w' message st tok hours :
  authorized cfg w message = true ->
  Py.split (text message) !! 1%nat = Some tok ->
  Py.int tok = Some hours ->
  let r := set_interval cfg w message st in
  let round := send_links_round cfg w' (state_after r) in
  MESSAGE_INTERVAL (state_after r) = hours * 3600
  ∧ trace_of r
    = [ReplyTo (chat_id message)
         ("⏰ Posting interval set to " ++ Py.str_int hours ++ " hours")]
  ∧ trace_of round
    = (trace_of (broadcast_pass cfg w'
                   (list_of_set w' (ACTIVE_GROUPS (state_after r))) (state_after r))
         ++ sleep_effects w' (hours * 3600))%list
  ∧ ∀ h : Z, Py.int (Py.str_int h) = Some h.
Proof.
  intros Hauth Htok Hint r round.
  pose proof (set_interval_token cfg w message st tok hours Hauth Htok Hint) as H.
  cbv zeta in H. fold r in H. destruct H as [Hst Htr].
  assert (Hmi : MESSAGE_INTERVAL (state_after r) = hours * 3600) by (by rewrite Hst).
  repeat split_and; auto; [|apply int_str_int].
  pose proof (send_links_round_run cfg w' (state_after r)) as Hround.
  cbv zeta in Hround. destruct Hround as [_ Hround]. rewrite Hmi in Hround. exact Hround.
Qed.

Lemma interval_accepts_any_integer_witness :
  let r := set_interval Sample.cfg Sample.world
             (Sample.command 7 Group 2 "/interval -2") Sample.start in
  MESSAGE_INTERVAL (state_after r) = -7200
  ∧ trace_of r = [ReplyTo 7 "⏰ Posting interval set to -2 hours"].
Proof.
  pose proof (interval_accepts_any_integer Sample.cfg Sample.world Sample.world
                (Sample.command 7 Group 2 "/interval -2") Sample.start "-2" (-2)
                eq_refl eq_refl eq_refl) as H.
  cbv zeta in H. destruct H as (H1 & H2 & _). split; [exact H1|exact H2].
Defined.

(** ** Composition of state relations *)

Section Preserves.

Variable P : State -> State -> Prop.
Hypothesis P_refl : ∀ st, P st st.
Hypothesis P_trans : ∀ st1 st2 st3, P st1 st2 -> P st2 st3 -> P st1 st3.

Lemma preserves_ret {A} (a : A) : preserves P (ret a).
Proof using P_refl. intros st. apply P_refl. Qed.

Lemma preserves_raise {A} e : preserves P (@raise A e).
Proof using P_refl. intros st. apply P_refl. Qed.

Lemma preserves_emit e : preserves P (emit e).
Proof using P_refl. intros st. apply P_refl. Qed.

Lemma preserves_get : preserves P get.
Proof using P_refl. intros st. apply P_refl. Qed.

Lemma preserves_modify f : (∀ st, P st (f st)) -> preserves P (modify f).
Proof. intros H st. apply H. Qed.

Lemma preserves_bind {A B} (m : Run A) (k : A -> Run B) :
  preserves P m -> (∀ a, preserves P (k a)) -> preserves P (m ≫= k).
Proof using P_trans.
  intros Hm Hk st. specialize (Hm st).
  unfold mbind, run_bind, bind, state_after in *.
  destruct (m st) as [[res st1] t1]. simpl in *.
  destruct res as [a|e]; [|exact Hm].
  specialize (Hk a st1). unfold state_after in Hk.
  destruct (k a st1) as [[res2 st2] t2]. simpl in *.
  eapply P_trans; eauto.
Qed.

Lemma preserves_try_except {A} (body : Run A) catches handler :
  preserves P body -> preserves P handler ->
  preserves P (try_except body catches handler).
Proof using P_trans.
  intros Hb Hh st. specialize (Hb st).
  unfold try_except, state_after in *.
  destruct (body st) as [[res st1] t1]. simpl in *.
  destruct res as [a|e]; [exact Hb|].
  destruct (catches e); [|exact Hb].
  specialize (Hh st1). unfold state_after in Hh.
  destruct (handler st1) as [[res2 st2] t2]. simpl in *.
  eapply P_trans; eauto.
Qed.

Lemma preserves_for_each {A} (l : list A) body :
  (∀ x, preserves P (body x)) -> preserves P (for_each l body).
Proof using P_refl P_trans.
  intros Hbody. induction l as [|x rest IH]; simpl.
  - apply preserves_ret.
  - apply preserves_bind; [apply Hbody|intros _; exact IH].
Qed.

Lemma preserves_reply w message body : preserves P (bot_reply_to w message body).
Proof using P_refl. intros st. apply P_refl. Qed.

Lemma preserves_send w chat body : preserves P (bot_send_message w chat body).
Proof using P_refl. intros st. apply P_refl. Qed.

Lemma preserves_get_me w : preserves P (bot_get_me w).
Proof using P_refl.
  intros st. unfold bot_get_me. destruct (get_me w); apply P_refl.
Qed.

Lemma preserves_time_sleep w secs : preserves P (time_sleep w secs).
Proof using P_refl.
  intros st. rewrite time_sleep_run. apply P_refl.
Qed.

Lemma preserves_admin_check cfg w message :
  preserves P (is_admin_or_group_admin cfg w message).
Proof using P_refl.
  intros st.
  destruct (is_admin_or_group_admin_run cfg w message st) as (t & Hrun & _).
  rewrite Hrun. apply P_refl.
Qed.

End Preserves.

Lemma links_kept_refl cfg st : links_kept cfg st st.
Proof. split; [reflexivity|]. intros chat info H. by left. Qed.

Lemma links_kept_trans cfg st1 st2 st3 :
  links_kept cfg st1 st2 -> links_kept cfg st2 st3 -> links_kept cfg st1 st3.
Proof.
  intros [Hl12 Hi12] [Hl23 Hi23]. split; [congruence|].
  intros chat info H. destruct (Hi23 chat info H) as [H2|H2].
  - by apply Hi12.
  - right. rewrite H2. unfold get_link. by rewrite Hl12.
Qed.

Lemma links_consistent_kept cfg st st' :
  links_consistent cfg st -> links_kept cfg st st' -> links_consistent cfg st'.
Proof.
  intros [Hurl Hinfo] [Hl Hi]. split.
  - intros chat l H. rewrite Hl in H. by eapply Hurl.
  - intros chat info H.
    assert (Hget : get_link cfg st' chat = get_link cfg st chat)
      by (unfold get_link; by rewrite Hl).
    rewrite Hget. destruct (Hi chat info H) as [H2|H2]; [by apply Hinfo|exact H2].
Qed.

(** ** Membership *)

Lemma send_welcome_and_link_run cfg w chat st :
  let r := send_welcome_and_link cfg w chat st in
  result_of r = Ret tt
  ∧ ACTIVE_GROUPS (state_after r) = ACTIVE_GROUPS st
  ∧ GROUP_LINKS (state_after r) = GROUP_LINKS st
  ∧ MESSAGE_INTERVAL (state_after r) = MESSAGE_INTERVAL st
  ∧ GROUP_INFO (state_after r)
    = match get_chat w chat with
      | Some chat_title =>
          <[chat := {| title := chat_title; link := get_link cfg st chat |}]> (GROUP_INFO st)
      | None => GROUP_INFO st
      end.
Proof.
  unfold send_welcome_and_link, bot_get_chat, bot_send_message. run_unfold.
  destruct (get_chat w chat) as [chat_title|]; simpl.
  - case_replies; repeat split.
  - repeat split.
Qed.

Lemma left_member_run w message st :
  let r := left_member w message st in
  GROUP_LINKS (state_after r) = GROUP_LINKS st
  ∧ MESSAGE_INTERVAL (state_after r) = MESSAGE_INTERVAL st
  ∧ (∀ me, get_me w = Some me -> left_chat_member message = Some me ->
       ACTIVE_GROUPS (state_after r) = ACTIVE_GROUPS st ∖ {[chat_id message]}
       ∧ GROUP_INFO (state_after r) = delete (chat_id message) (GROUP_INFO st))
  ∧ (∀ chat info, GROUP_INFO (state_after r) !! chat = Some info ->
       GROUP_INFO st !! chat = Some info).
Proof.
  unfold left_member, bot_get_me. run_unfold.
  destruct (left_chat_member message) as [left_id|]; simpl.
  - destruct (get_me w) as [me|]; simpl.
    + destruct (bool_decide (left_id = me)) eqn:E; simpl.
      * split; [reflexivity|split; [reflexivity|split]].
        -- intros me' _ _. split; reflexivity.
        -- intros chat info H. by apply lookup_delete_Some in H as [_ H].
      * split; [reflexivity|split; [reflexivity|split]]; [|auto].
        intros me' [= <-] [= ->]. by rewrite bool_decide_eq_true_2 in E.
    + split; [reflexivity|split; [reflexivity|split]]; [|auto]. intros me' [=].
  - split; [reflexivity|split; [reflexivity|split]]; [|auto]. intros me' _ [=].
Qed.

Lemma links_kept_welcome cfg w chat :
  preserves (links_kept cfg) (send_welcome_and_link cfg w chat).
Proof.
  intros st.
  pose proof (send_welcome_and_link_run cfg w chat st) as H. cbv zeta in H.
  destruct H as (_ & _ & Hl & _ & Hi).
  split; [exact Hl|]. intros c info Hc. rewrite Hi in Hc.
  destruct (get_chat w chat) as [chat_title|]; [|by left].
  destruct (decide (c = chat)) as [->|Hne].
  - rewrite lookup_insert_eq in Hc. injection Hc as <-. by right.
  - rewrite lookup_insert_ne in Hc by done. by left.
Qed.

Lemma links_kept_send_link cfg w chat :
  preserves (links_kept cfg) (send_link_to_group cfg w chat).
Proof.
  intros st. rewrite send_link_to_group_run.
  destruct (send_fails cfg w st chat); split; try reflexivity; intros c info H; by left.
Qed.

Lemma links_kept_left_member cfg w message :
  preserves (links_kept cfg) (left_member w message).
Proof.
  intros st. pose proof (left_member_run w message st) as H. cbv zeta in H.
  destruct H as (Hl & _ & _ & Hi). split; [exact Hl|].
  intros chat info Hc. left. by apply Hi.
Qed.

Create HintDb links.
#[local] Hint Resolve links_kept_refl links_kept_trans : links.

Ltac links_kept_step :=
  first
    [ apply links_kept_welcome
    | apply links_kept_send_link
    | apply links_kept_left_member
    | apply preserves_admin_check; eauto with links
    | apply preserves_bind; [eauto with links| |intros ?]
    | apply preserves_try_except; [eauto with links| |]
    | apply preserves_for_each; [eauto with links|eauto with links|intros ?]
    | apply preserves_ret; eauto with links
    | apply preserves_raise; eauto with links
    | apply preserves_emit; eauto with links
    | apply preserves_get; eauto with links
    | apply preserves_reply; eauto with links
    | apply preserves_send; eauto with links
    | apply preserves_get_me; eauto with links
    | apply preserves_time_sleep; eauto with links
    | apply preserves_modify; intros ?; split; [reflexivity|intros ? ? ?; by left]
    | match goal with
      | |- preserves _ (if ?b then _ else _) => destruct b
      | |- preserves _ (match ?x with _ => _ end) => destruct x
      end ].

(** The handlers other than [/setlink] and [/defaultlink], and the rounds of
    the broadcaster, keep the overrides. *)
Lemma links_kept_handler cfg w h message :
  h ≠ OnSetLink -> h ≠ OnDefaultLink ->
  preserves (links_kept cfg) (run_handler cfg w h message).
Proof.
  intros H1 H2.
  destruct h; try congruence; simpl;
    unfold send_help_first, send_help, show_user_id, show_link, set_interval,
      show_stats, start_command, new_member_first, new_member,
      new_member_first_body, new_member_body,
      second_token_int, second_token, get_next_post_time;
    repeat links_kept_step.
Qed.

Lemma links_kept_round cfg w : preserves (links_kept cfg) (send_links_round cfg w).
Proof.
  unfold send_links_round, broadcast_pass. repeat links_kept_step.
Qed.

(** ** The links of the chats *)

Lemma startswith_http_nonempty l : Py.startswith_http l = true -> is_http_url l.
Proof.
  intros H. split; [exact H|]. intros ->. discriminate H.
Qed.

Lemma unauthorized_state cfg w message st (k : Run unit) :
  authorized cfg w message = false ->
  state_after
    ((allowed ← is_admin_or_group_admin cfg w message;
      if negb allowed then bot_reply_to w message admin_only else k) st) = st.
Proof.
  intros Hauth. by destruct (denied_after_check cfg w message st k Hauth) as [H _].
Qed.

Lemma set_link_bad_argument cfg w message st :
  bad_url_argument message ->
  state_after (set_link cfg w message st) = st.
Proof.
  intros Hbad. destruct (authorized cfg w message) eqn:Hauth.
  - pose proof (set_link_authorized cfg w message st Hauth) as H. cbv zeta in H.
    unfold bad_url_argument in Hbad.
    destruct (Py.split (text message) !! 1%nat) as [u|]; [|by destruct H].
    rewrite Hbad in H. by destruct H.
  - by apply unauthorized_state.
Qed.

Lemma links_consistent_set_link cfg w message st :
  links_consistent cfg st ->
  links_consistent cfg (state_after (set_link cfg w message st)).
Proof.
  intros Hinv. destruct (authorized cfg w message) eqn:Hauth.
  - pose proof (set_link_authorized cfg w message st Hauth) as H. cbv zeta in H.
    destruct (Py.split (text message) !! 1%nat) as [u|];
      [|destruct H as [-> _]; exact Hinv].
    destruct (Py.startswith_http u) eqn:Hurl; [|destruct H as [-> _]; exact Hinv].
    destruct H as [-> _]. destruct Hinv as [Hurls Hinfo]. split; simpl.
    + intros chat l Hl. destruct (decide (chat = chat_id message)) as [->|Hne].
      * rewrite lookup_insert_eq in Hl. injection Hl as <-.
        by apply startswith_http_nonempty.
      * rewrite lookup_insert_ne in Hl by done. by eapply Hurls.
    + intros chat info Hi. unfold get_link. simpl.
      destruct (decide (chat = chat_id message)) as [->|Hne].
      * rewrite lookup_insert_eq. rewrite lookup_alter_eq in Hi.
        destruct (GROUP_INFO st !! chat_id message); simpl in Hi; [|discriminate].
        by injection Hi as <-.
      * rewrite lookup_insert_ne by done. rewrite lookup_alter_ne in Hi by done.
        by apply Hinfo.
  - unfold set_link. by rewrite unauthorized_state.
Qed.

Lemma links_consistent_default_link cfg w message st :
  links_consistent cfg st ->
  links_consistent cfg (state_after (default_link cfg w message st)).
Proof.
  intros Hinv. destruct (authorized cfg w message) eqn:Hauth.
  - pose proof (default_link_authorized cfg w message st Hauth) as H. cbv zeta in H.
    destruct H as [-> _]. destruct Hinv as [Hurls Hinfo]. split; simpl.
    + intros chat l Hl. apply lookup_delete_Some in Hl as [_ Hl]. by eapply Hurls.
    + intros chat info Hi. unfold get_link. simpl.
      destruct (decide (chat = chat_id message)) as [->|Hne].
      * rewrite lookup_delete_eq. rewrite lookup_alter_eq in Hi.
        destruct (GROUP_INFO st !! chat_id message); simpl in Hi; [|discriminate].
        by injection Hi as <-.
      * rewrite lookup_delete_ne by done. rewrite lookup_alter_ne in Hi by done.
        by apply Hinfo.
  - unfold default_link. by rewrite unauthorized_state.
Qed.

Lemma links_consistent_reachable cfg st :
  reachable cfg st -> links_consistent cfg st.
Proof.
  induction 1 as [env interval Henv|st ev Hreach IH Hok].
  - split; intros chat x Hx; simpl in Hx; by rewrite lookup_empty in Hx.
  - destruct ev as [h w message|w]; simpl.
    + destruct (decide (h = OnSetLink)) as [->|Hs];
        [by apply links_consistent_set_link|].
      destruct (decide (h = OnDefaultLink)) as [->|Hd];
        [by apply links_consistent_default_link|].
      eapply links_consistent_kept; [exact IH|].
      by apply links_kept_handler.
    + eapply links_consistent_kept; [exact IH|]. apply links_kept_round.
Qed.

(** C7, as the code has it: in every reachable state each stored override is
    a non-empty string that starts with [http://] or [https://], each group
    record carries the link of its chat, and the link of a chat is such an
    override or else [DEFAULT_LINK], which is taken from the environment
    unchecked; so the link of every chat is a URL whenever [DEFAULT_LINK] is
    one.  A [/setlink] whose argument fails the check changes nothing. *)
Theorem links_are_urls cfg st :
  reachable cfg st ->
  (∀ chat l, GROUP_LINKS st !! chat = Some l -> is_http_url l)
  ∧ (∀ chat info, GROUP_INFO st !! chat = Some info -> link info = get_link cfg st chat)
  ∧ (∀ chat, get_link cfg st chat = DEFAULT_LINK cfg
             ∨ ∃ l, get_link cfg st chat = Some l ∧ is_http_url l)
  ∧ (∀ default, DEFAULT_LINK cfg = Some default -> is_http_url default ->
       ∀ chat, ∃ l, get_link cfg st chat = Some l ∧ is_http_url l)
  ∧ (∀ w message, bad_url_argument message ->
       state_after (set_link cfg w message st) = st).
Proof.
  intros Hreach. destruct (links_consistent_reachable cfg st Hreach) as [Hurls Hinfo].
  assert (Hget : ∀ chat, get_link cfg st chat = DEFAULT_LINK cfg
                         ∨ ∃ l, get_link cfg st chat = Some l ∧ is_http_url l).
  { intros chat. unfold get_link.
    destruct (GROUP_LINKS st !! chat) as [l|] eqn:E; [right|by left].
    exists l. split; [reflexivity|by eapply Hurls]. }
  repeat split_and; auto.
  - intros default Hdef Hurl chat. destruct (Hget chat) as [H|H]; [|exact H].
    exists default. split; [congruence|exact Hurl].
  - intros w message. apply set_link_bad_argument.
Qed.

Lemma sample_reachable :
  reachable Sample.cfg
    (step Sample.cfg
       (Update OnSetLink Sample.world (Sample.command 7 Group 2 "/setlink https://a.example"))
       Sample.start).
Proof.
  apply reachable_step; [|exact I].
  apply (reachable_init Sample.cfg None). reflexivity.
Qed.

Lemma links_are_urls_witness :
  let st := step Sample.cfg
              (Update OnSetLink Sample.world
                 (Sample.command 7 Group 2 "/setlink https://a.example"))
              Sample.start in
  (∃ l, get_link Sample.cfg st 7 = Some l ∧ is_http_url l)
  ∧ (∃ l, get_link Sample.cfg st 8 = Some l ∧ is_http_url l).
Proof.
  pose proof (links_are_urls Sample.cfg _ sample_reachable) as H.
  destruct H as (_ & _ & _ & H & _).
  specialize (H "https://default.example" eq_refl
                (startswith_http_nonempty "https://default.example" eq_refl)).
  split; apply H.
Defined.

(** C7, as the claim has it, fails: [DEFAULT_LINK] is whatever the
    environment holds, and it is the link of every chat without an
    override, from the initial state on. *)
Lemma default_link_unchecked :
  reachable Sample.cfg_plain Sample.start
  ∧ get_link Sample.cfg_plain Sample.start 7 = Some "example.com"
  ∧ Py.startswith_http "example.com" = false.
Proof.
  split; [|split; reflexivity].
  apply (reachable_init Sample.cfg_plain None). reflexivity.
Qed.

(** ** Removal and re-addition *)

Section Readd.

Variable cfg : Config.
Variable message : Message.
Variable me : Z.
Variable chat_title : option string.

(** What one turn of the loop of a [new_chat_members] handler does. *)
Variable body : Z -> Run unit.
Hypothesis body_bot : ∀ st,
  GROUP_LINKS (state_after (body me st)) = GROUP_LINKS st
  ∧ GROUP_INFO (state_after (body me st)) !! chat_id message
    = Some {| title := chat_title; link := get_link cfg st (chat_id message) |}
  ∧ chat_id message ∈ ACTIVE_GROUPS (state_after (body me st)).
Hypothesis body_other : ∀ x st, x ≠ me -> body x st = (Ret tt, st, []).

Lemma for_each_cons_state x rest st :
  state_after (for_each (x :: rest) body st)
  = match result_of (body x st) with
    | Ret _ => state_after (for_each rest body (state_after (body x st)))
    | Raise _ => state_after (body x st)
    end.
Proof.
  simpl for_each. unfold mbind, run_bind, bind, state_after, result_of.
  destruct (body x st) as [[res st1] t1]. simpl.
  destruct res; [|reflexivity].
  by destruct (for_each rest body st1) as [[res2 st2] t2].
Qed.

Lemma readd_loop members : ∀ st,
  let after := state_after (for_each members body st) in
  let info := {| title := chat_title; link := get_link cfg st (chat_id message) |} in
  GROUP_LINKS after = GROUP_LINKS st
  ∧ (me ∈ members
     ∨ (GROUP_INFO st !! chat_id message = Some info
        ∧ chat_id message ∈ ACTIVE_GROUPS st) ->
     GROUP_INFO after !! chat_id message = Some info
     ∧ chat_id message ∈ ACTIVE_GROUPS after).
Proof using body_bot body_other.
  induction members as [|x rest IH]; intros st after info; subst after info.
  - split; [reflexivity|]. intros [Hin|H]; [by apply elem_of_nil in Hin|exact H].
  - rewrite for_each_cons_state.
    destruct (decide (x = me)) as [->|Hne].
    + destruct (body_bot st) as (Hl & Hi & Ha).
      assert (Hget : get_link cfg (state_after (body me st)) (chat_id message)
                     = get_link cfg st (chat_id message))
        by (unfold get_link; by rewrite Hl).
      destruct (result_of (body me st)).
      * specialize (IH (state_after (body me st))). cbv zeta in IH.
        rewrite Hget in IH. destruct IH as [IHl IHi].
        split; [congruence|]. intros _. apply IHi. right. by split.
      * split; [exact Hl|]. intros _. by split.
    + rewrite (body_other x st Hne). unfold result_of, state_after at 1 2. simpl.
      specialize (IH st). cbv zeta in IH. destruct IH as [IHl IHi].
      split; [exact IHl|]. intros [Hin|H]; apply IHi; [|by right].
      apply elem_of_cons in Hin as [->|Hin]; [done|by left].
Qed.

End Readd.

Lemma new_member_first_body_bot cfg w message me chat_title st :
  get_me w = Some me ->
  get_chat w (chat_id message) = Some chat_title ->
  let after := state_after (new_member_first_body cfg w message me st) in
  GROUP_LINKS after = GROUP_LINKS st
  ∧ GROUP_INFO after !! chat_id message
    = Some {| title := chat_title; link := get_link cfg st (chat_id message) |}
  ∧ chat_id message ∈ ACTIVE_GROUPS after.
Proof.
  intros Hme Hchat after. subst after.
  unfold new_member_first_body, bot_get_me, mbind, run_bind. rewrite Hme.
  rewrite bind_ret, bool_decide_eq_true_2, bind_modify by reflexivity.
  set (st1 := with_ACTIVE_GROUPS _ st).
  pose proof (send_welcome_and_link_run cfg w (chat_id message) st1) as H.
  cbv zeta in H. rewrite Hchat in H. destruct H as (_ & Ha & Hl & _ & Hi).
  split; [exact Hl|]. split.
  - rewrite Hi. apply lookup_insert_eq.
  - rewrite Ha. apply elem_of_union_l. by apply elem_of_singleton.
Qed.

Lemma new_member_body_bot cfg w message me chat_title st :
  get_me w = Some me ->
  get_chat w (chat_id message) = Some chat_title ->
  let after := state_after (new_member_body cfg w message me st) in
  GROUP_LINKS after = GROUP_LINKS st
  ∧ GROUP_INFO after !! chat_id message
    = Some {| title := chat_title; link := get_link cfg st (chat_id message) |}
  ∧ chat_id message ∈ ACTIVE_GROUPS after.
Proof.
  intros Hme Hchat after. subst after.
  unfold new_member_body, bot_get_me, mbind, run_bind. rewrite Hme.
  rewrite bind_ret, bool_decide_eq_true_2, bind_modify by reflexivity.
  set (st1 := with_ACTIVE_GROUPS _ st).
  pose proof (send_welcome_and_link_run cfg w (chat_id message) st1) as H.
  cbv zeta in H. rewrite Hchat in H. destruct H as (Hres & Ha & Hl & _ & Hi).
  rewrite state_after_bind, Hres.
  set (st2 := state_after (send_welcome_and_link cfg w (chat_id message) st1)) in *.
  assert (Hgoal : GROUP_LINKS st2 = GROUP_LINKS st
                  ∧ GROUP_INFO st2 !! chat_id message
                    = Some {| title := chat_title; link := get_link cfg st (chat_id message) |}
                  ∧ chat_id message ∈ ACTIVE_GROUPS st2).
  { split; [exact Hl|]. split; [rewrite Hi; apply lookup_insert_eq|].
    rewrite Ha. apply elem_of_union_l. by apply elem_of_singleton. }
  destruct (is_admin_or_group_admin_run cfg w message st2) as (t & Hrun & _).
  rewrite state_after_bind, Hrun. unfold result_of, state_after at 2. simpl.
  destruct (authorized cfg w message); exact Hgoal.
Qed.

Lemma new_member_first_body_other cfg w message me x st :
  get_me w = Some me -> x ≠ me ->
  new_member_first_body cfg w message x st = (Ret tt, st, []).
Proof.
  intros Hme Hne.
  unfold new_member_first_body, bot_get_me, mbind, run_bind. rewrite Hme.
  by rewrite bind_ret, bool_decide_eq_false_2.
Qed.

Lemma new_member_body_other cfg w message me x st :
  get_me w = Some me -> x ≠ me ->
  new_member_body cfg w message x st = (Ret tt, st, []).
Proof.
  intros Hme Hne.
  unfold new_member_body, bot_get_me, mbind, run_bind. rewrite Hme.
  by rewrite bind_ret, bool_decide_eq_false_2.
Qed.

(** What a "bot added" event leaves in [GROUP_INFO], for either handler. *)
Lemma bot_added_info cfg w message me chat_title st :
  get_me w = Some me ->
  me ∈ new_chat_members message ->
  get_chat w (chat_id message) = Some chat_title ->
  let info := {| title := chat_title; link := get_link cfg st (chat_id message) |} in
  GROUP_INFO (state_after (new_member_first cfg w message st)) !! chat_id message = Some info
  ∧ GROUP_INFO (state_after (new_member cfg w message st)) !! chat_id message = Some info.
Proof.
  intros Hme Hin Hchat info. subst info. split.
  - unfold new_member_first.
    refine (proj1 (proj2 (readd_loop cfg message me chat_title
      (new_member_first_body cfg w message) _ _ (new_chat_members message) st) _)).
    + intros st'. by apply new_member_first_body_bot.
    + intros x st'. by apply new_member_first_body_other.
    + by left.
  - unfold new_member.
    refine (proj1 (proj2 (readd_loop cfg message me chat_title
      (new_member_body cfg w message) _ _ (new_chat_members message) st) _)).
    + intros st'. by apply new_member_body_bot.
    + intros x st'. by apply new_member_body_other.
    + by left.
Qed.

(** C1, as the code has it: the removal of the bot takes the chat out of
    the active set and deletes its group record, but keeps its override;
    when the bot is added again (and the lookup of the chat succeeds) the
    registry holds one record for the chat, whose link is the override
    that was stored before the removal, and [DEFAULT_LINK] only when there
    was none. *)
Theorem removal_then_readd cfg w1 w2 m1 m2 st me1 me2 chat_title :
  get_me w1 = Some me1 ->
  left_chat_member m1 = Some me1 ->
  get_me w2 = Some me2 ->
  me2 ∈ new_chat_members m2 ->
  chat_id m2 = chat_id m1 ->
  get_chat w2 (chat_id m1) = Some chat_title ->
  let chat := chat_id m1 in
  let st1 := state_after (left_member w1 m1 st) in
  let info := {| title := chat_title; link := get_link cfg st chat |} in
  (chat ∉ ACTIVE_GROUPS st1)
  ∧ GROUP_INFO st1 !! chat = None
  ∧ GROUP_LINKS st1 = GROUP_LINKS st
  ∧ (∀ st', GROUP_LINKS st' !! chat = GROUP_LINKS st1 !! chat ->
       GROUP_INFO (state_after (new_member_first cfg w2 m2 st')) !! chat = Some info
       ∧ GROUP_INFO (state_after (new_member cfg w2 m2 st')) !! chat = Some info)
  ∧ (∀ l, GROUP_LINKS st !! chat = Some l -> link info = Some l)
  ∧ (GROUP_LINKS st !! chat = None -> link info = DEFAULT_LINK cfg).
Proof.
  intros Hme1 Hleft Hme2 Hin Hc Hchat chat st1 info.
  pose proof (left_member_run w1 m1 st) as H. cbv zeta in H. fold st1 in H.
  destruct H as (Hl & _ & Hrem & _).
  destruct (Hrem me1 Hme1 Hleft) as [Ha Hi].
  repeat split_and.
  - rewrite Ha. intros Hx. apply elem_of_difference in Hx as [_ Hx].
    apply Hx. by apply elem_of_singleton.
  - rewrite Hi. apply lookup_delete_eq.
  - exact Hl.
  - intros st' Hst'. rewrite Hl in Hst'.
    assert (Hinfo : info = {| title := chat_title; link := get_link cfg st' (chat_id m2) |}).
    { subst info. unfold get_link. rewrite Hc. fold chat. by rewrite Hst'. }
    rewrite Hinfo. subst chat. rewrite <- Hc in *.
    by apply (bot_added_info cfg w2 m2 me2 chat_title st').
  - intros l Hsome. subst info. unfold get_link. simpl. by rewrite Hsome.
  - intros Hnone. subst info. unfold get_link. simpl. by rewrite Hnone.
Qed.

Lemma removal_then_readd_witness :
  let st := run_events Sample.cfg
              [Update OnNewMember Sample.world (Sample.bot_joined 7 2)] Sample.start in
  let st1 := state_after (left_member Sample.world (Sample.bot_left 7 2) st) in
  GROUP_INFO st1 !! 7 = None
  ∧ GROUP_INFO (state_after (new_member Sample.cfg Sample.world (Sample.bot_joined 7 2) st1)) !! 7
    = Some {| title := Some "Team"; link := Some "https://default.example" |}.
Proof.
  pose proof (removal_then_readd Sample.cfg Sample.world Sample.world
                (Sample.bot_left 7 2) (Sample.bot_joined 7 2)
                (run_events Sample.cfg
                   [Update OnNewMember Sample.world (Sample.bot_joined 7 2)] Sample.start)
                99 99 (Some "Team") eq_refl eq_refl eq_refl) as H.
  cbv zeta in H.
  destruct H as (_ & H1 & _ & H2 & _).
  - apply list_elem_of_In. simpl. left. reflexivity.
  - reflexivity.
  - reflexivity.
  - split; [exact H1|]. exact (proj2 (H2 _ eq_refl)).
Defined.

(** C1, as the claim has it, fails: an override set before the removal is
    still in [GROUP_LINKS] after it, and the record made when the bot is
    added again carries it instead of [DEFAULT_LINK]. *)
Lemma override_survives_removal :
  let before :=
    run_events Sample.cfg
      [Update OnNewMember Sample.world (Sample.bot_joined 7 2);
       Update OnSetLink Sample.world (Sample.command 7 Group 2 "/setlink https://a.example")]
      Sample.start in
  let removed := step Sample.cfg (Update OnLeftMember Sample.world (Sample.bot_left 7 2)) before in
  let readded := step Sample.cfg (Update OnNewMember Sample.world (Sample.bot_joined 7 2)) removed in
  GROUP_LINKS removed !! 7 = Some "https://a.example"
  ∧ GROUP_INFO removed !! 7 = None
  ∧ (link <$> GROUP_INFO readded !! 7) = Some (Some "https://a.example")
  ∧ DEFAULT_LINK Sample.cfg = Some "https://default.example"
  ∧ (link <$> GROUP_INFO readded !! 7) ≠ Some (DEFAULT_LINK Sample.cfg).
Proof. vm_compute. repeat split; discriminate. Qed.

Lemma reachable_run_events cfg evs : ∀ st,
  reachable cfg st -> Forall event_ok evs -> reachable cfg (run_events cfg evs st).
Proof.
  induction evs as [|ev rest IH]; intros st Hst Hok; [exact Hst|].
  inversion Hok; subst. simpl. apply IH; [|assumption].
  by apply reachable_step.
Qed.

Lemma sample_start_reachable : reachable Sample.cfg Sample.start.
Proof. apply (reachable_init Sample.cfg None). reflexivity. Qed.

(** C10: an authorized [/setlink] with a valid URL stores the override
    under the id of the chat it was sent in, whatever the type of the chat
    and whether or not the chat is active; the removal of the bot deletes
    the group record and the membership but leaves [GROUP_LINKS] as it was;
    hence a reachable state holds an override for a chat that is not
    active. *)
Theorem override_outlives_membership cfg w w' message message' st u :
  authorized cfg w message = true ->
  Py.split (text message) !! 1%nat = Some u ->
  Py.startswith_http u = true ->
  let st1 := state_after (set_link cfg w message st) in
  let st2 := state_after (left_member w' message' st1) in
  GROUP_LINKS st1 !! chat_id message = Some u
  ∧ ACTIVE_GROUPS st1 = ACTIVE_GROUPS st
  ∧ GROUP_LINKS st2 = GROUP_LINKS st1
  ∧ (∀ me, get_me w' = Some me -> left_chat_member message' = Some me ->
       GROUP_INFO st2 !! chat_id message' = None
       ∧ chat_id message' ∉ ACTIVE_GROUPS st2)
  ∧ ∃ cfg0 st0 chat,
      reachable cfg0 st0
      ∧ is_Some (GROUP_LINKS st0 !! chat)
      ∧ chat ∉ ACTIVE_GROUPS st0.
Proof.
  intros Hauth Htok Hurl st1 st2.
  pose proof (set_link_authorized cfg w message st Hauth) as H1. cbv zeta in H1.
  rewrite Htok, Hurl in H1. destruct H1 as [H1 _]. fold st1 in H1.
  pose proof (left_member_run w' message' st1) as H2. cbv zeta in H2. fold st2 in H2.
  destruct H2 as (Hl & _ & Hrem & _).
  repeat split_and.
  - rewrite H1. simpl. apply lookup_insert_eq.
  - by rewrite H1.
  - exact Hl.
  - intros me Hme Hleft. destruct (Hrem me Hme Hleft) as [Ha Hi]. split.
    + rewrite Hi. apply lookup_delete_eq.
    + rewrite Ha. intros Hx. apply elem_of_difference in Hx as [_ Hx].
      apply Hx. by apply elem_of_singleton.
  - exists Sample.cfg.
    exists (run_events Sample.cfg
              [Update OnNewMember Sample.world (Sample.bot_joined 7 2);
               Update OnSetLink Sample.world
                 (Sample.command 7 Group 2 "/setlink https://a.example");
               Update OnLeftMember Sample.world (Sample.bot_left 7 2)]
              Sample.start).
    exists 7. split_and!.
    + apply reachable_run_events; [apply sample_start_reachable|].
      repeat constructor.
    + exists "https://a.example". vm_compute. reflexivity.
    + rewrite <- elem_of_elements. intros Hin. vm_compute in Hin. inversion Hin.
Qed.

Lemma override_outlives_membership_witness :
  let st1 := state_after (set_link Sample.cfg Sample.world
                            (Sample.command 5 Private 1 "/setlink https://a.example")
                            Sample.start) in
  GROUP_LINKS st1 !! 5 = Some "https://a.example"
  ∧ ACTIVE_GROUPS st1 = ACTIVE_GROUPS Sample.start.
Proof.
  pose proof (override_outlives_membership Sample.cfg Sample.world Sample.world
                (Sample.command 5 Private 1 "/setlink https://a.example")
                (Sample.bot_left 5 1) Sample.start "https://a.example"
                eq_refl eq_refl eq_refl) as H.
  cbv zeta in H. destruct H as (H1 & H2 & _). split; [exact H1|exact H2].
Defined.


(** * Further properties of the handlers *)

(** ** Commands that only answer *)

(** [/help] (either registered function), [/myid], [/link] and [/stats]
    never change the state, whoever calls them.  The first three make
    exactly one call to the client, the reply.  So does [/stats], except
    when a process-wide admin asks in a chat whose next-post date leaves
    the range of [datetime]: then the date arithmetic raises
    [OverflowError] before any reply. *)
Theorem read_only_commands cfg w message st :
  (state_after (send_help_first w message st) = st
   ∧ trace_of (send_help_first w message st) = [ReplyTo (chat_id message) help_text_first])
  ∧ (state_after (send_help cfg w message st) = st
     ∧ ∃ body, trace_of (send_help cfg w message st) = [ReplyTo (chat_id message) body]
               ∧ (body = help_text_admin ∨ body = help_text_user))
  ∧ (state_after (show_user_id w message st) = st
     ∧ ∃ body, trace_of (show_user_id w message st) = [ReplyTo (chat_id message) body])
  ∧ (state_after (show_link cfg w message st) = st
     ∧ ∃ body, trace_of (show_link cfg w message st) = [ReplyTo (chat_id message) body])
  ∧ (state_after (show_stats cfg w message st) = st
     ∧ if is_admin cfg (from_user_id message) && next_post_overflows st (chat_id message)
       then show_stats cfg w message st = (Raise OverflowError, st, [])
       else ∃ body, trace_of (show_stats cfg w message st) = [ReplyTo (chat_id message) body]).
Proof.
  repeat split_and.
  - reflexivity.
  - reflexivity.
  - reflexivity.
  - unfold send_help. destruct (is_admin cfg (from_user_id message)); eauto.
  - reflexivity.
  - eexists. reflexivity.
  - unfold show_link. run_unfold. simpl. by case_replies.
  - unfold show_link. run_unfold. simpl. case_replies; eexists; reflexivity.
  - unfold show_stats, get_next_post_time.
    destruct (is_admin cfg (from_user_id message)); simpl; [|reflexivity].
    run_unfold. simpl.
    destruct (LAST_MESSAGE_TIMES st !! chat_id message) as [last|]; simpl;
      [destruct (add_seconds last (MESSAGE_INTERVAL st)); simpl|]; by case_replies.
  - unfold show_stats, get_next_post_time, next_post_overflows.
    destruct (is_admin cfg (from_user_id message)); simpl; [|eexists; reflexivity].
    run_unfold. simpl.
    destruct (LAST_MESSAGE_TIMES st !! chat_id message) as [last|]; simpl;
      [destruct (add_seconds last (MESSAGE_INTERVAL st)); simpl|];
      try reflexivity; case_replies; eexists; reflexivity.
Qed.

(** ** [/interval] with a bad argument *)

(** An authorized [/interval] whose argument is missing, or is a token
    that [int] does not read (for a token outside ASCII: that the
    interpreter does not read), answers with the usage line and changes
    nothing. *)
Theorem set_interval_bad_argument cfg w message st :
  authorized cfg w message = true ->
  Py.split (text message) !! 1%nat ≫= Py.int_with None (int_other w) = None ->
  state_after (set_interval cfg w message st) = st
  ∧ trace_of (set_interval cfg w message st) = [ReplyTo (chat_id message) interval_usage].
Proof.
  intros Hauth Hbad.
  pose proof (set_interval_authorized cfg w message st Hauth) as H. cbv zeta in H.
  by rewrite Hbad in H.
Qed.

Lemma set_interval_bad_argument_witness :
  state_after (set_interval Sample.cfg Sample.world
                 (Sample.command 7 Group 2 "/interval 2.5") Sample.start) = Sample.start
  ∧ trace_of (set_interval Sample.cfg Sample.world
                (Sample.command 7 Group 2 "/interval") Sample.start)
    = [ReplyTo 7 interval_usage].
Proof.
  split.
  - exact (proj1 (set_interval_bad_argument Sample.cfg Sample.world
             (Sample.command 7 Group 2 "/interval 2.5") Sample.start eq_refl eq_refl)).
  - exact (proj2 (set_interval_bad_argument Sample.cfg Sample.world
             (Sample.command 7 Group 2 "/interval") Sample.start eq_refl eq_refl)).
Defined.

(** ** What the admin commands leave alone *)

Lemma set_link_cases cfg w message st :
  state_after (set_link cfg w message st) = st
  ∨ ∃ u, Py.split (text message) !! 1%nat = Some u
         ∧ Py.startswith_http u = true
         ∧ state_after (set_link cfg w message st)
           = with_GROUP_INFO (alter (set_info_link (Some u)) (chat_id message))
               (with_GROUP_LINKS <[chat_id message := u]> st).
Proof.
  destruct (authorized cfg w message) eqn:Hauth.
  - pose proof (set_link_authorized cfg w message st Hauth) as H. cbv zeta in H.
    destruct (Py.split (text message) !! 1%nat) as [u|]; [|left; by destruct H].
    destruct (Py.startswith_http u) eqn:Hurl; [|left; by destruct H].
    right. exists u. by destruct H.
  - left. by apply unauthorized_state.
Qed.

Lemma default_link_cases cfg w message st :
  state_after (default_link cfg w message st) = st
  ∨ state_after (default_link cfg w message st)
    = with_GROUP_INFO (alter (set_info_link (DEFAULT_LINK cfg)) (chat_id message))
        (with_GROUP_LINKS (delete (chat_id message)) st).
Proof.
  destruct (authorized cfg w message) eqn:Hauth.
  - right. by destruct (default_link_authorized cfg w message st Hauth).
  - left. by apply unauthorized_state.
Qed.

Lemma set_interval_cases cfg w message st :
  state_after (set_interval cfg w message st) = st
  ∨ ∃ hours, state_after (set_interval cfg w message st)
             = with_MESSAGE_INTERVAL (hours * 3600) st.
Proof.
  destruct (authorized cfg w message) eqn:Hauth.
  - pose proof (set_interval_authorized cfg w message st Hauth) as H. cbv zeta in H.
    destruct (Py.split (text message) !! 1%nat ≫= Py.int_with None (int_other w))
      as [hours|]; [right; exists hours|left]; by destruct H.
  - left. by apply unauthorized_state.
Qed.

(** Whoever the caller and whatever the text: [/setlink] and
    [/defaultlink] never change the active set, the set of chats that have
    a group record, the titles, the last-broadcast times or the interval;
    [/interval] changes nothing but the interval. *)
Theorem admin_commands_frame cfg w message st :
  let kept r :=
    ACTIVE_GROUPS r = ACTIVE_GROUPS st
    ∧ dom (GROUP_INFO r) = dom (GROUP_INFO st)
    ∧ (title <$> GROUP_INFO r) = (title <$> GROUP_INFO st)
    ∧ LAST_MESSAGE_TIMES r = LAST_MESSAGE_TIMES st
    ∧ MESSAGE_INTERVAL r = MESSAGE_INTERVAL st in
  kept (state_after (set_link cfg w message st))
  ∧ kept (state_after (default_link cfg w message st))
  ∧ (let r := state_after (set_interval cfg w message st) in
     ACTIVE_GROUPS r = ACTIVE_GROUPS st
     ∧ GROUP_LINKS r = GROUP_LINKS st
     ∧ GROUP_INFO r = GROUP_INFO st
     ∧ LAST_MESSAGE_TIMES r = LAST_MESSAGE_TIMES st).
Proof.
  intros kept. subst kept. cbv beta.
  assert (Halter : ∀ l (m : gmap Z GroupInfo),
             dom (alter (set_info_link l) (chat_id message) m) = dom m
             ∧ (title <$> alter (set_info_link l) (chat_id message) m) = (title <$> m)).
  { intros l m. split.
    - apply set_eq. intros c. rewrite !elem_of_dom.
      destruct (decide (c = chat_id message)) as [->|Hne].
      + rewrite lookup_alter_eq. by rewrite fmap_is_Some.
      + by rewrite lookup_alter_ne.
    - apply map_eq. intros c. rewrite !lookup_fmap.
      destruct (decide (c = chat_id message)) as [->|Hne].
      + rewrite lookup_alter_eq. by destruct (m !! chat_id message).
      + by rewrite lookup_alter_ne. }
  split; [|split].
  - destruct (set_link_cases cfg w message st) as [-> | (u & _ & _ & ->)]; [done|].
    simpl. destruct (Halter (Some u) (GROUP_INFO st)). done.
  - destruct (default_link_cases cfg w message st) as [-> | ->]; [done|].
    simpl. destruct (Halter (DEFAULT_LINK cfg) (GROUP_INFO st)). done.
  - cbv zeta. by destruct (set_interval_cases cfg w message st) as [-> | (hours & ->)].
Qed.

(** ** Links are per chat, and the last command decides *)

(** [/setlink] and [/defaultlink] sent in one chat never change the
    override, the link or the group record of another chat. *)
Theorem link_commands_local cfg w message st other :
  other ≠ chat_id message ->
  let kept r :=
    GROUP_LINKS r !! other = GROUP_LINKS st !! other
    ∧ get_link cfg r other = get_link cfg st other
    ∧ GROUP_INFO r !! other = GROUP_INFO st !! other in
  kept (state_after (set_link cfg w message st))
  ∧ kept (state_after (default_link cfg w message st)).
Proof.
  intros Hne kept. subst kept. cbv beta. split.
  - destruct (set_link_cases cfg w message st) as [-> | (u & _ & _ & ->)]; [done|].
    unfold get_link. simpl.
    rewrite lookup_insert_ne by done. by rewrite lookup_alter_ne.
  - destruct (default_link_cases cfg w message st) as [-> | ->]; [done|].
    unfold get_link. simpl.
    rewrite lookup_delete_ne by done. by rewrite lookup_alter_ne.
Qed.

Lemma link_commands_local_witness :
  let st := Sample.three_groups in
  let r := state_after (set_link Sample.cfg Sample.world
                          (Sample.command 7 Group 2 "/setlink https://a.example") st) in
  GROUP_LINKS r !! 8 = GROUP_LINKS st !! 8
  ∧ get_link Sample.cfg r 8 = get_link Sample.cfg st 8
  ∧ GROUP_INFO r !! 8 = GROUP_INFO st !! 8.
Proof.
  refine (proj1 (link_commands_local Sample.cfg Sample.world
            (Sample.command 7 Group 2 "/setlink https://a.example")
            Sample.three_groups 8 _)).
  simpl. lia.
Defined.

Lemma alter_set_info_link_twice l1 l2 chat (m : gmap Z GroupInfo) :
  alter (set_info_link l2) chat (alter (set_info_link l1) chat m)
  = alter (set_info_link l2) chat m.
Proof.
  apply map_eq. intros c. destruct (decide (c = chat)) as [->|Hne].
  - rewrite !lookup_alter_eq. by destruct (m !! chat).
  - by rewrite !lookup_alter_ne.
Qed.

(** Two authorized [/setlink] with valid URLs in the same chat leave the
    state that the second alone would leave: the last URL is the link, and
    nothing of the first remains. *)
Theorem set_link_last_wins cfg w1 w2 m1 m2 st u1 u2 :
  authorized cfg w1 m1 = true ->
  authorized cfg w2 m2 = true ->
  chat_id m2 = chat_id m1 ->
  Py.split (text m1) !! 1%nat = Some u1 -> Py.startswith_http u1 = true ->
  Py.split (text m2) !! 1%nat = Some u2 -> Py.startswith_http u2 = true ->
  let st1 := state_after (set_link cfg w1 m1 st) in
  state_after (set_link cfg w2 m2 st1) = state_after (set_link cfg w2 m2 st)
  ∧ get_link cfg (state_after (set_link cfg w2 m2 st1)) (chat_id m1) = Some u2.
Proof.
  intros Ha1 Ha2 Hc Ht1 Hu1 Ht2 Hu2 st1.
  pose proof (set_link_authorized cfg w1 m1 st Ha1) as H1. cbv zeta in H1.
  rewrite Ht1, Hu1 in H1. destruct H1 as [H1 _]. fold st1 in H1.
  pose proof (set_link_authorized cfg w2 m2 st1 Ha2) as H2. cbv zeta in H2.
  rewrite Ht2, Hu2 in H2. destruct H2 as [H2 _].
  pose proof (set_link_authorized cfg w2 m2 st Ha2) as H3. cbv zeta in H3.
  rewrite Ht2, Hu2 in H3. destruct H3 as [H3 _].
  rewrite H2, H3, H1, Hc. split.
  - unfold with_GROUP_INFO, with_GROUP_LINKS. simpl.
    by rewrite insert_insert_eq, alter_set_info_link_twice.
  - unfold get_link. simpl. by rewrite lookup_insert_eq.
Qed.

Lemma set_link_last_wins_witness :
  let m1 := Sample.command 7 Group 2 "/setlink https://a.example" in
  let m2 := Sample.command 7 Group 1 "/setlink http://b.example" in
  let st1 := state_after (set_link Sample.cfg Sample.world m1 Sample.three_groups) in
  get_link Sample.cfg (state_after (set_link Sample.cfg Sample.world m2 st1)) 7
  = Some "http://b.example".
Proof.
  exact (proj2 (set_link_last_wins Sample.cfg Sample.world Sample.world
                  (Sample.command 7 Group 2 "/setlink https://a.example")
                  (Sample.command 7 Group 1 "/setlink http://b.example")
                  Sample.three_groups "https://a.example" "http://b.example"
                  eq_refl eq_refl eq_refl eq_refl eq_refl eq_refl eq_refl)).
Defined.

(** An authorized [/defaultlink] wipes whatever a [/setlink] or a
    [/defaultlink] sent before it in the same chat did, by any caller and
    with any text: the state is the one [/defaultlink] alone leaves. *)
Theorem default_link_absorbs cfg w1 w2 m1 m2 st :
  authorized cfg w2 m2 = true ->
  chat_id m2 = chat_id m1 ->
  state_after (default_link cfg w2 m2 (state_after (set_link cfg w1 m1 st)))
  = state_after (default_link cfg w2 m2 st)
  ∧ state_after (default_link cfg w2 m2 (state_after (default_link cfg w1 m1 st)))
    = state_after (default_link cfg w2 m2 st).
Proof.
  intros Ha2 Hc.
  assert (Hd : ∀ s, state_after (default_link cfg w2 m2 s)
                    = with_GROUP_INFO (alter (set_info_link (DEFAULT_LINK cfg)) (chat_id m1))
                        (with_GROUP_LINKS (delete (chat_id m1)) s)).
  { intros s. rewrite <- Hc. by destruct (default_link_authorized cfg w2 m2 s Ha2). }
  rewrite !Hd. split.
  - destruct (set_link_cases cfg w1 m1 st) as [-> | (u & _ & _ & ->)]; [done|].
    unfold with_GROUP_INFO, with_GROUP_LINKS. simpl.
    by rewrite delete_insert_eq, alter_set_info_link_twice.
  - destruct (default_link_cases cfg w1 m1 st) as [-> | ->]; [done|].
    unfold with_GROUP_INFO, with_GROUP_LINKS. simpl.
    by rewrite delete_delete_eq, alter_set_info_link_twice.
Qed.

Lemma default_link_absorbs_witness :
  let m1 := Sample.command 7 Group 2 "/setlink https://a.example" in
  let m2 := Sample.command 7 Group 1 "/defaultlink" in
  state_after (default_link Sample.cfg Sample.world m2
                 (state_after (set_link Sample.cfg Sample.world m1 Sample.three_groups)))
  = state_after (default_link Sample.cfg Sample.world m2 Sample.three_groups).
Proof.
  exact (proj1 (default_link_absorbs Sample.cfg Sample.world Sample.world
                  (Sample.command 7 Group 2 "/setlink https://a.example")
                  (Sample.command 7 Group 1 "/defaultlink")
                  Sample.three_groups eq_refl eq_refl)).
Defined.

(** ** The welcome *)

(** [send_welcome_and_link] never raises.  When the lookup of the chat
    fails nothing is stored and nothing is sent; otherwise the group record
    is stored before the send, so it stays even when the send fails, and the
    time of the broadcast is recorded only when the send succeeds. *)
Theorem send_welcome_and_link_outcomes cfg w chat st :
  let r := send_welcome_and_link cfg w chat st in
  result_of r = Ret tt
  ∧ match get_chat w chat with
    | None => state_after r = st ∧ sent_to (trace_of r) = []
    | Some chat_title =>
        GROUP_INFO (state_after r)
        = <[chat := {| title := chat_title; link := get_link cfg st chat |}]> (GROUP_INFO st)
        ∧ ∃ body,
            sent_to (trace_of r) = [chat]
            ∧ head (trace_of r) = Some (SendMessage chat body)
            ∧ LAST_MESSAGE_TIMES (state_after r)
              = if send_message w chat body
                then <[chat := now w]> (LAST_MESSAGE_TIMES st)
                else LAST_MESSAGE_TIMES st
    end.
Proof.
  unfold send_welcome_and_link, bot_get_chat, bot_send_message. run_unfold.
  destruct (get_chat w chat) as [chat_title|]; simpl.
  - match goal with
    | |- context [if send_message w chat ?b then _ else _] =>
        destruct (send_message w chat b) eqn:Hsend; simpl;
        (split; [reflexivity|split; [reflexivity|]]);
        exists b; rewrite Hsend; repeat split
    end.
  - repeat split.
Qed.

Lemma send_welcome_and_link_time cfg w chat st :
  is_Some (get_chat w chat) ->
  (∀ body, send_message w chat body = true) ->
  LAST_MESSAGE_TIMES (state_after (send_welcome_and_link cfg w chat st)) !! chat
  = Some (now w).
Proof.
  intros [chat_title Hchat] Hsend.
  unfold send_welcome_and_link, bot_get_chat, bot_send_message. run_unfold.
  rewrite Hchat. simpl. rewrite Hsend. simpl. apply lookup_insert_eq.
Qed.

(** ** Membership events *)

Section ForEachMember.

Variable body : Z -> Run unit.
Variable me : Z.
Variable P : State -> Prop.

Hypothesis body_other : ∀ x st, x ≠ me -> body x st = (Ret tt, st, []).
Hypothesis body_bot : ∀ st, P (state_after (body me st)).

Lemma for_each_others members : ∀ st,
  me ∉ members -> for_each members body st = (Ret tt, st, []).
Proof using body_other.
  induction members as [|x rest IH]; intros st Hnot; [reflexivity|].
  apply not_elem_of_cons in Hnot as [Hne Hrest].
  simpl for_each. unfold mbind, run_bind, bind.
  rewrite (body_other x st) by done. by rewrite (IH st Hrest).
Qed.

Lemma for_each_establishes members : ∀ st,
  me ∈ members ∨ P st -> P (state_after (for_each members body st)).
Proof using body_other body_bot.
  induction members as [|x rest IH]; intros st H.
  - destruct H as [Hin|H]; [by apply elem_of_nil in Hin|exact H].
  - rewrite for_each_cons_state. destruct (decide (x = me)) as [->|Hne].
    + destruct (result_of (body me st)); [|apply body_bot].
      apply IH. right. apply body_bot.
    + rewrite (body_other x st Hne). unfold result_of, state_after at 1. simpl.
      apply IH. destruct H as [Hin|H]; [|by right].
      apply elem_of_cons in Hin as [->|Hin]; [done|by left].
Qed.

End ForEachMember.

Lemma new_member_bodies_state cfg w message me st :
  get_me w = Some me ->
  let welcomed :=
    state_after (send_welcome_and_link cfg w (chat_id message)
                   (with_ACTIVE_GROUPS (fun a => {[chat_id message]} ∪ a) st)) in
  state_after (new_member_first_body cfg w message me st) = welcomed
  ∧ state_after (new_member_body cfg w message me st) = welcomed.
Proof.
  intros Hme welcomed. subst welcomed. split.
  - unfold new_member_first_body, bot_get_me, mbind, run_bind. rewrite Hme.
    by rewrite bind_ret, bool_decide_eq_true_2, bind_modify by reflexivity.
  - unfold new_member_body, bot_get_me, mbind, run_bind. rewrite Hme.
    rewrite bind_ret, bool_decide_eq_true_2, bind_modify by reflexivity.
    set (st1 := with_ACTIVE_GROUPS _ st).
    pose proof (send_welcome_and_link_run cfg w (chat_id message) st1) as H.
    cbv zeta in H. destruct H as (Hres & _).
    rewrite state_after_bind, Hres.
    set (st2 := state_after (send_welcome_and_link cfg w (chat_id message) st1)).
    destruct (is_admin_or_group_admin_run cfg w message st2) as (t & Hrun & _).
    rewrite state_after_bind, Hrun. unfold result_of, state_after at 2. simpl.
    by destruct (authorized cfg w message).
Qed.

(** A [new_chat_members] event that does not name the bot changes nothing
    and sends nothing, with either registered function. *)
Theorem new_member_others cfg w message me st :
  get_me w = Some me ->
  me ∉ new_chat_members message ->
  new_member_first cfg w message st = (Ret tt, st, [])
  ∧ new_member cfg w message st = (Ret tt, st, []).
Proof.
  intros Hme Hnot. split.
  - apply (for_each_others _ me); [|exact Hnot].
    intros x st'. by apply new_member_first_body_other.
  - apply (for_each_others _ me); [|exact Hnot].
    intros x st'. by apply new_member_body_other.
Qed.

Lemma new_member_others_witness :
  let message :=
    {| chat_id := 7; chat_type := Group; from_user_id := 2; text := "";
       new_chat_members := [5; 6]; left_chat_member := None |} in
  new_member_first Sample.cfg Sample.world message Sample.three_groups
  = (Ret tt, Sample.three_groups, [])
  ∧ new_member Sample.cfg Sample.world message Sample.three_groups
    = (Ret tt, Sample.three_groups, []).
Proof.
  apply (new_member_others Sample.cfg Sample.world _ 99); [reflexivity|].
  intros Hin. apply list_elem_of_In in Hin. simpl in Hin. lia.
Defined.

(** A [new_chat_members] event that names the bot leaves the chat in the
    active set, even when the lookup of the chat or the welcome send fails;
    when both succeed the time of the welcome is recorded as the last
    broadcast of the chat. *)
Theorem bot_added_activates cfg w message me st :
  get_me w = Some me ->
  me ∈ new_chat_members message ->
  let good st' :=
    chat_id message ∈ ACTIVE_GROUPS st'
    ∧ (is_Some (get_chat w (chat_id message)) ->
       (∀ body, send_message w (chat_id message) body = true) ->
       LAST_MESSAGE_TIMES st' !! chat_id message = Some (now w)) in
  good (state_after (new_member_first cfg w message st))
  ∧ good (state_after (new_member cfg w message st)).
Proof.
  intros Hme Hin good.
  assert (Hwelcome : ∀ st', good
            (state_after (send_welcome_and_link cfg w (chat_id message)
               (with_ACTIVE_GROUPS (fun a => {[chat_id message]} ∪ a) st')))).
  { intros st'. subst good. cbv beta.
    set (st1 := with_ACTIVE_GROUPS _ st').
    pose proof (send_welcome_and_link_run cfg w (chat_id message) st1) as H1.
    cbv zeta in H1. destruct H1 as (_ & Ha & _).
    split.
    - rewrite Ha. apply elem_of_union_l. by apply elem_of_singleton.
    - intros Hchat Hsend. by apply send_welcome_and_link_time. }
  split.
  - unfold new_member_first. apply (for_each_establishes _ me good).
    + intros x st'. by apply new_member_first_body_other.
    + intros st'.
      rewrite (proj1 (new_member_bodies_state cfg w message me st' Hme)). apply Hwelcome.
    + by left.
  - unfold new_member. apply (for_each_establishes _ me good).
    + intros x st'. by apply new_member_body_other.
    + intros st'.
      rewrite (proj2 (new_member_bodies_state cfg w message me st' Hme)). apply Hwelcome.
    + by left.
Qed.

Lemma bot_added_activates_witness :
  let st := state_after (new_member Sample.cfg Sample.world (Sample.bot_joined 7 2)
                           Sample.start) in
  7 ∈ ACTIVE_GROUPS st ∧ LAST_MESSAGE_TIMES st !! 7 = Some 1000.
Proof.
  pose proof (bot_added_activates Sample.cfg Sample.world (Sample.bot_joined 7 2) 99
                Sample.start eq_refl) as H.
  cbv zeta in H. destruct H as [_ [H1 H2]].
  - apply list_elem_of_In. simpl. left. reflexivity.
  - split; [exact H1|]. apply H2; [by eexists|reflexivity].
Defined.

(** ** [/start] *)

Lemma bind_reply {B} w message body (k : unit -> Run B) st :
  bind (bot_reply_to w message body) k st
  = if reply_to w message body then
      (result_of (k tt st), state_after (k tt st),
       ReplyTo (chat_id message) body :: trace_of (k tt st))
    else (Raise ApiException, st, [ReplyTo (chat_id message) body]).
Proof.
  unfold bind, bot_reply_to, result_of, state_after, trace_of.
  destruct (reply_to w message body); [|reflexivity].
  by destruct (k tt st) as [[res st2] t2].
Qed.

(** [/start] answers first and activates afterwards.  Outside a group, or
    when the reply raises, the state is unchanged and nothing is sent.  In
    a group whose reply went through the chat is active afterwards; a chat
    that already has a group record gets no welcome, a chat without one
    gets the welcome of a newly added chat. *)
Theorem start_command_outcomes cfg w message st :
  let r := start_command cfg w message st in
  let menu := if is_admin cfg (from_user_id message) then admin_text else user_text in
  let activated := with_ACTIVE_GROUPS (fun a => {[chat_id message]} ∪ a) st in
  head (trace_of r) = Some (ReplyTo (chat_id message) menu)
  ∧ if is_group_chat message && reply_to w message menu then
      chat_id message ∈ ACTIVE_GROUPS (state_after r)
      ∧ match GROUP_INFO st !! chat_id message with
        | Some _ => state_after r = activated ∧ sent_to (trace_of r) = []
        | None =>
            state_after r
            = state_after (send_welcome_and_link cfg w (chat_id message) activated)
        end
    else state_after r = st ∧ sent_to (trace_of r) = [].
Proof.
  intros r menu activated. subst r. unfold start_command.
  unfold mbind, run_bind. fold menu. rewrite bind_reply.
  destruct (reply_to w message menu) eqn:Hreply.
  - split; [reflexivity|]. unfold state_after at 1 3 5, trace_of at 1 3. simpl fst. simpl snd.
    destruct (is_group_chat message) eqn:Hgroup; simpl andb; cbv iota.
    + rewrite bind_modify, bind_get. fold activated.
      replace (GROUP_INFO activated) with (GROUP_INFO st) by reflexivity.
      destruct (GROUP_INFO st !! chat_id message) as [info|] eqn:Hinfo.
      * unfold ret, state_after, trace_of. simpl.
        split; [|split; reflexivity].
        apply elem_of_union_l. by apply elem_of_singleton.
      * pose proof (send_welcome_and_link_run cfg w (chat_id message) activated) as H.
        cbv zeta in H. destruct H as (_ & Ha & _).
        split; [|reflexivity].
        rewrite Ha. apply elem_of_union_l. by apply elem_of_singleton.
    + unfold ret, state_after, trace_of. simpl. split; reflexivity.
  - rewrite andb_false_r. unfold state_after, trace_of. simpl. repeat split.
Qed.

(** ** Removal events that change nothing *)

(** When the member who left is not the bot, [left_member] changes nothing
    and logs nothing. *)
Theorem left_member_other w message me other st :
  get_me w = Some me ->
  left_chat_member message = Some other ->
  other ≠ me ->
  left_member w message st = (Ret tt, st, []).
Proof.
  intros Hme Hleft Hne.
  unfold left_member, bot_get_me, mbind, run_bind. rewrite Hleft, Hme.
  by rewrite bind_ret, bool_decide_eq_false_2.
Qed.

Lemma left_member_other_witness :
  let message :=
    {| chat_id := 7; chat_type := Group; from_user_id := 2; text := "";
       new_chat_members := []; left_chat_member := Some 5 |} in
  left_member Sample.world message Sample.three_groups
  = (Ret tt, Sample.three_groups, []).
Proof.
  apply (left_member_other Sample.world _ 99 5); [reflexivity|reflexivity|lia].
Defined.

(** The removal of the bot from a chat that is neither active nor recorded
    (a second removal, for instance) raises nothing and leaves the state as
    it is: the discard and the guarded [del] tolerate the missing key. *)
Theorem left_member_unknown_chat w message me st :
  get_me w = Some me ->
  left_chat_member message = Some me ->
  chat_id message ∉ ACTIVE_GROUPS st ->
  GROUP_INFO st !! chat_id message = None ->
  result_of (left_member w message st) = Ret tt
  ∧ state_after (left_member w message st) = st.
Proof.
  intros Hme Hleft Hact Hinfo.
  unfold left_member, bot_get_me, mbind, run_bind. rewrite Hleft, Hme.
  rewrite bind_ret, bool_decide_eq_true_2, !bind_modify by reflexivity.
  unfold emit, result_of, state_after. simpl. split; [reflexivity|].
  destruct st as [a gl gi lt mi]. unfold with_GROUP_INFO, with_ACTIVE_GROUPS. simpl in *.
  f_equal.
  - apply set_eq. intros x. rewrite elem_of_difference, elem_of_singleton.
    split; [by intros [H _]|]. intros H. split; [exact H|]. by intros ->.
  - by apply delete_id.
Qed.

Lemma left_member_unknown_chat_witness :
  let st := state_after (left_member Sample.world (Sample.bot_left 7 2)
                           Sample.three_groups) in
  state_after (left_member Sample.world (Sample.bot_left 7 2) st) = st.
Proof.
  refine (proj2 (left_member_unknown_chat Sample.world (Sample.bot_left 7 2) 99 _
                   eq_refl eq_refl _ _)).
  - rewrite <- elem_of_elements. intros Hin. vm_compute in Hin.
    apply list_elem_of_In in Hin. simpl in Hin. lia.
  - vm_compute. reflexivity.
Defined.

(** ** What a pass sends and records *)

Lemma broadcast_pass_cons cfg w chat rest st :
  broadcast_pass cfg w (chat :: rest) st
  = let st1 := state_after (send_link_to_group cfg w chat st) in
    (result_of (broadcast_pass cfg w rest st1),
     state_after (broadcast_pass cfg w rest st1),
     (trace_of (send_link_to_group cfg w chat st)
        ++ trace_of (broadcast_pass cfg w rest st1))%list).
Proof.
  unfold broadcast_pass. simpl for_each. unfold mbind, run_bind, bind.
  rewrite send_link_to_group_run.
  destruct (send_fails cfg w st chat); unfold state_after, result_of, trace_of; simpl;
    match goal with
    | |- context [for_each rest ?b ?s] => by destruct (for_each rest b s) as [[res st2] t2]
    end.
Qed.

(** The sends of a pass and the times it records. *)
Lemma broadcast_pass_effects cfg w snapshot : ∀ st,
  let r := broadcast_pass cfg w snapshot st in
  List.filter is_send (trace_of r)
  = List.map (fun g => SendMessage g (link_message w (get_link cfg st g))) snapshot
  ∧ ∀ g, LAST_MESSAGE_TIMES (state_after r) !! g
         = if bool_decide (g ∈ snapshot) && negb (send_fails cfg w st g)
           then Some (now w)
           else LAST_MESSAGE_TIMES st !! g.
Proof.
  induction snapshot as [|chat rest IH]; intros st r; subst r.
  - split; [reflexivity|]. intros g.
    rewrite bool_decide_eq_false_2 by apply not_elem_of_nil. reflexivity.
  - rewrite broadcast_pass_cons. cbv zeta.
    unfold trace_of at 1, state_after at 1. simpl fst. simpl snd.
    set (st1 := state_after (send_link_to_group cfg w chat st)).
    assert (Hgl : GROUP_LINKS st1 = GROUP_LINKS st).
    { subst st1. rewrite send_link_to_group_run. by destruct (send_fails cfg w st chat). }
    assert (Hget : ∀ g, get_link cfg st1 g = get_link cfg st g)
      by (intros g; unfold get_link; by rewrite Hgl).
    destruct (IH st1) as [IHs IHt]. split.
    + rewrite List.filter_app, IHs. simpl List.map. rewrite send_link_to_group_run.
      destruct (send_fails cfg w st chat); unfold trace_of; simpl;
        f_equal; apply List.map_ext; intros g; by rewrite Hget.
    + intros g. rewrite IHt, (send_fails_ext cfg w st st1 g Hgl).
      destruct (decide (g = chat)) as [->|Hne].
      * rewrite (bool_decide_eq_true_2 (chat ∈ chat :: rest)) by (by left).
        subst st1. rewrite send_link_to_group_run.
        destruct (send_fails cfg w st chat) eqn:Hfail; simpl.
        -- by rewrite andb_false_r.
        -- rewrite andb_true_r, lookup_insert_eq. by destruct (bool_decide (chat ∈ rest)).
      * assert (Hdec : bool_decide (g ∈ chat :: rest) = bool_decide (g ∈ rest)).
        { apply bool_decide_ext. rewrite elem_of_cons.
          split; [intros [Heq|Hin]; [by destruct Hne|exact Hin]|by right]. }
        rewrite Hdec.
        destruct (bool_decide (g ∈ rest) && negb (send_fails cfg w st g)); [reflexivity|].
        subst st1. rewrite send_link_to_group_run.
        destruct (send_fails cfg w st chat); simpl; [reflexivity|].
        by rewrite lookup_insert_ne.
Qed.


(** ** What a round keeps *)

(** After a round, the active set holds exactly the groups that were
    active before and whose send did not fail: the broadcaster never adds a
    group, and drops a group only on a failed send. *)
Theorem round_keeps_groups_sent cfg w st g :
  set_order_ok w ->
  g ∈ ACTIVE_GROUPS (state_after (send_links_round cfg w st))
  ↔ g ∈ ACTIVE_GROUPS st ∧ send_fails cfg w st g = false.
Proof.
  intros Hok.
  pose proof (send_links_round_run cfg w st) as H. cbv zeta in H. destruct H as [-> _].
  pose proof (broadcast_pass_run cfg w (list_of_set w (ACTIVE_GROUPS st)) st) as H.
  cbv zeta in H. destruct H as (_ & _ & _ & _ & _ & _ & _ & Hact).
  rewrite Hact, (Hok _), elem_of_elements.
  destruct (send_fails cfg w st g).
  - split; [intros [Hg Hnot]; destruct Hnot; by split|intros [_ Hf]; discriminate].
  - split; [intros [Hg _]; by split|intros [Hg _]; split; [exact Hg|]].
    intros [_ Hf]. discriminate.
Qed.

Lemma round_keeps_groups_sent_witness :
  (9 ∈ ACTIVE_GROUPS
         (state_after (send_links_round Sample.cfg Sample.world_9_fails Sample.three_groups))
   ↔ 9 ∈ ACTIVE_GROUPS Sample.three_groups
     ∧ send_fails Sample.cfg Sample.world_9_fails Sample.three_groups 9 = false).
Proof.
  apply round_keeps_groups_sent. intros a. reflexivity.
Defined.

(** ** The loop goes on *)

Lemma send_links_round_result cfg w st :
  result_of (send_links_round cfg w st)
  = if ((0 <=? MESSAGE_INTERVAL st) && (MESSAGE_INTERVAL st <=? sleep_max w))
       || (60 <=? sleep_max w)
    then Ret tt else Raise OverflowError.
Proof.
  unfold send_links_round.
  pose proof (broadcast_pass_run cfg w (list_of_set w (ACTIVE_GROUPS st)) st) as H.
  cbv zeta in H. destruct H as (Hres & _ & _ & _ & _ & _ & Hmi & _).
  run_unfold. simpl.
  destruct (broadcast_pass cfg w (list_of_set w (ACTIVE_GROUPS st)) st)
    as [[res st1] t1]. simpl in *. subst res.
  rewrite !time_sleep_run, Hmi.
  destruct ((0 <=? MESSAGE_INTERVAL st) && (MESSAGE_INTERVAL st <=? sleep_max w));
    simpl; [reflexivity|].
  replace ((0 <=? 60) && (60 <=? sleep_max w)) with (60 <=? sleep_max w) by reflexivity.
  destruct (MESSAGE_INTERVAL st <? 0); simpl; destruct (60 <=? sleep_max w) eqn:E;
    simpl; try reflexivity.
  all: destruct (60 <? 0) eqn:E2; [lia|reflexivity].
Qed.

(** As long as the platform can sleep 60 seconds, nothing stops the loop:
    whatever the sends do and whatever the interval is, every round returns
    and completes exactly one sleep. *)
Theorem send_links_periodically_goes_on cfg rounds : ∀ st,
  Forall (fun w => 60 <= sleep_max w) rounds ->
  let r := send_links_periodically cfg rounds st in
  result_of r = Ret tt
  ∧ length (sleeps (trace_of r)) = length rounds.
Proof.
  induction rounds as [|w later IH]; intros st Hall r; subst r; [by split|].
  inversion Hall as [|? ? Hw Hlater]; subst.
  pose proof (send_links_round_result cfg w st) as Hres.
  replace (60 <=? sleep_max w) with true in Hres by (symmetry; lia).
  rewrite orb_true_r in Hres.
  pose proof (sleeps_round cfg w st) as Hsl.
  assert (Hone : length (sleeps (sleep_effects w (MESSAGE_INTERVAL st))) = 1%nat).
  { unfold sleep_effects.
    destruct ((0 <=? MESSAGE_INTERVAL st) && (MESSAGE_INTERVAL st <=? sleep_max w));
      [reflexivity|].
    replace (60 <=? sleep_max w) with true by (symmetry; lia). reflexivity. }
  simpl send_links_periodically. unfold mbind, run_bind, bind.
  destruct (send_links_round cfg w st) as [[res st1] t1].
  unfold result_of, trace_of in *. simpl in *. subst res.
  specialize (IH st1 Hlater). cbv zeta in IH.
  destruct (send_links_periodically cfg later st1) as [[res2 st2] t2]. simpl in *.
  destruct IH as [-> IHlen]. split; [reflexivity|].
  unfold sleeps in *. rewrite omap_app, length_app, IHlen, Hsl, Hone. reflexivity.
Qed.

Lemma send_links_periodically_goes_on_witness :
  let st := state_after (set_interval Sample.cfg Sample.world
                           (Sample.command 7 Group 2 "/interval -1") Sample.three_groups) in
  let r := send_links_periodically Sample.cfg
             [Sample.world_9_fails; Sample.world; Sample.world] st in
  result_of r = Ret tt ∧ length (sleeps (trace_of r)) = 3%nat.
Proof.
  apply (send_links_periodically_goes_on Sample.cfg
           [Sample.world_9_fails; Sample.world; Sample.world]).
  repeat constructor; simpl; lia.
Defined.

(** ** A new link reaches the next broadcast *)

(** After an authorized [/setlink] with a valid URL in a chat that the
    next round finds in its copy of the active set, the message that round
    sends to the chat carries the new URL. *)
Theorem broadcast_after_set_link cfg w w' message st u :
  authorized cfg w message = true ->
  Py.split (text message) !! 1%nat = Some u ->
  Py.startswith_http u = true ->
  let st1 := state_after (set_link cfg w message st) in
  chat_id message ∈ list_of_set w' (ACTIVE_GROUPS st1) ->
  SendMessage (chat_id message) (link_message w' (Some u))
  ∈ trace_of (send_links_round cfg w' st1).
Proof.
  intros Hauth Htok Hurl st1 Hin.
  assert (Hget : get_link cfg st1 (chat_id message) = Some u).
  { pose proof (set_link_authorized cfg w message st Hauth) as H. cbv zeta in H.
    rewrite Htok, Hurl in H. destruct H as [H _]. subst st1. rewrite H.
    unfold get_link. simpl. by rewrite lookup_insert_eq. }
  pose proof (send_links_round_run cfg w' st1) as H. cbv zeta in H.
  destruct H as [_ ->]. apply elem_of_app. left.
  pose proof (broadcast_pass_effects cfg w' (list_of_set w' (ACTIVE_GROUPS st1)) st1) as H.
  cbv zeta in H. destruct H as [Hsends _].
  apply list_elem_of_In.
  apply (proj1 (List.filter_In is_send _ _)).
  rewrite Hsends. apply List.in_map_iff. exists (chat_id message).
  split; [by rewrite Hget|by apply list_elem_of_In].
Qed.

Lemma broadcast_after_set_link_witness :
  let st1 := state_after (set_link Sample.cfg Sample.world
                            (Sample.command 8 Group 2 "/setlink https://a.example")
                            Sample.three_groups) in
  SendMessage 8 (link_message Sample.world (Some "https://a.example"))
  ∈ trace_of (send_links_round Sample.cfg Sample.world st1).
Proof.
  apply (broadcast_after_set_link Sample.cfg Sample.world Sample.world
           (Sample.command 8 Group 2 "/setlink https://a.example")
           Sample.three_groups "https://a.example" eq_refl eq_refl eq_refl).
  apply list_elem_of_In. vm_compute. right. right. left. reflexivity.
Defined.


(** ** Invariants of every handler *)

Lemma keeps_refl Q st : keeps Q st st.
Proof. by intros H. Qed.

Lemma keeps_trans Q st1 st2 st3 : keeps Q st1 st2 -> keeps Q st2 st3 -> keeps Q st1 st3.
Proof. intros H12 H23 H. by apply H23, H12. Qed.

Lemma preserves_get_chat P w chat :
  (∀ st, P st st) -> preserves P (bot_get_chat w chat).
Proof.
  intros Hrefl st. unfold bot_get_chat. destruct (get_chat w chat); apply Hrefl.
Qed.

Lemma preserves_get_chat_administrators P w chat :
  (∀ st, P st st) -> preserves P (bot_get_chat_administrators w chat).
Proof.
  intros Hrefl st. unfold bot_get_chat_administrators.
  destruct (get_chat_administrators w chat); apply Hrefl.
Qed.

(** One step of a proof that a piece of code keeps [Q]; [leaf] proves it
    for the field updates. *)
Ltac keeps_step leaf :=
  lazymatch goal with
  | |- preserves _ (mbind _ _) =>
      apply preserves_bind; [exact (keeps_trans _)| |intros ?]
  | |- preserves _ (try_except _ _ _) =>
      apply preserves_try_except; [exact (keeps_trans _)| |]
  | |- preserves _ (for_each _ _) =>
      apply preserves_for_each; [exact (keeps_refl _)|exact (keeps_trans _)|intros ?]
  | |- preserves _ (ret _) => apply preserves_ret; exact (keeps_refl _)
  | |- preserves _ (raise _) => apply preserves_raise; exact (keeps_refl _)
  | |- preserves _ (emit _) => apply preserves_emit; exact (keeps_refl _)
  | |- preserves _ get => apply preserves_get; exact (keeps_refl _)
  | |- preserves _ (bot_reply_to _ _ _) => apply preserves_reply; exact (keeps_refl _)
  | |- preserves _ (bot_send_message _ _ _) => apply preserves_send; exact (keeps_refl _)
  | |- preserves _ (bot_get_me _) => apply preserves_get_me; exact (keeps_refl _)
  | |- preserves _ (bot_get_chat _ _) => apply preserves_get_chat; exact (keeps_refl _)
  | |- preserves _ (bot_get_chat_administrators _ _) =>
      apply preserves_get_chat_administrators; exact (keeps_refl _)
  | |- preserves _ (time_sleep _ _) => apply preserves_time_sleep; exact (keeps_refl _)
  | |- preserves _ (modify _) => apply preserves_modify; intros ?; leaf
  | |- preserves _ (if ?b then _ else _) => destruct b
  | |- preserves _ (match ?x with _ => _ end) => destruct x
  end.

Ltac unfold_handlers :=
  unfold send_help_first, send_help, show_user_id, show_link, set_link,
    default_link, set_interval, show_stats, start_command, new_member_first,
    new_member, new_member_first_body, new_member_body, left_member,
    send_links_round, broadcast_pass, send_welcome_and_link, send_link_to_group,
    is_admin_or_group_admin, is_group_admin, second_token_int, second_token,
    get_next_post_time.

Lemma whole_hours_handler cfg w h message :
  preserves (keeps whole_hours) (run_handler cfg w h message).
Proof.
  destruct h; simpl; unfold_handlers.
  all: repeat keeps_step ltac:(intros [hours Hh]; unfold whole_hours; simpl;
                               first [by exists hours|eexists; reflexivity]).
Qed.

Lemma whole_hours_round cfg w : preserves (keeps whole_hours) (send_links_round cfg w).
Proof.
  unfold_handlers.
  repeat keeps_step ltac:(intros [hours Hh]; unfold whole_hours; simpl;
                          first [by exists hours|eexists; reflexivity]).
Qed.

(** In every reachable state the interval is a whole number of hours, so
    the hours that [/stats] shows ([MESSAGE_INTERVAL // 3600]) lose
    nothing. *)
Theorem interval_whole_hours cfg st :
  reachable cfg st ->
  whole_hours st
  ∧ MESSAGE_INTERVAL st / 3600 * 3600 = MESSAGE_INTERVAL st.
Proof.
  intros Hreach.
  assert (H : whole_hours st).
  { induction Hreach as [env interval Henv|st ev Hreach IH Hok].
    - destruct env as [s|]; simpl in Henv.
      + destruct (Py.int s) as [hours|]; [|discriminate].
        injection Henv as <-. by exists hours.
      + injection Henv as <-. by exists 24.
    - destruct ev as [h w message|w]; simpl.
      + by apply whole_hours_handler.
      + by apply whole_hours_round. }
  split; [exact H|]. destruct H as [h ->]. by rewrite Z.div_mul.
Qed.

Lemma interval_whole_hours_witness :
  let st := step Sample.cfg
              (Update OnInterval Sample.world (Sample.command 7 Group 2 "/interval -5"))
              Sample.start in
  whole_hours st
  ∧ MESSAGE_INTERVAL st / 3600 * 3600 = MESSAGE_INTERVAL st.
Proof.
  apply (interval_whole_hours Sample.cfg).
  apply reachable_step; [|exact I].
  apply (reachable_init Sample.cfg None). reflexivity.
Defined.

Ltac last_time_leaf :=
  unfold has_last_time; simpl; intros Hlast;
  first [exact Hlast|apply lookup_insert_is_Some'; by right].

(** Once a last-broadcast time is recorded for a chat, no handler and no
    round of the broadcaster erases it, not even the removal of the bot
    from the chat. *)
Theorem last_time_never_forgotten cfg ev st chat :
  has_last_time chat st -> has_last_time chat (step cfg ev st).
Proof.
  revert st. change (∀ st, keeps (has_last_time chat) st (step cfg ev st)).
  destruct ev as [h w message|w]; simpl.
  - change (preserves (keeps (has_last_time chat)) (run_handler cfg w h message)).
    destruct h; simpl; unfold_handlers; repeat keeps_step last_time_leaf.
  - change (preserves (keeps (has_last_time chat)) (send_links_round cfg w)).
    unfold_handlers; repeat keeps_step last_time_leaf.
Qed.

Lemma last_time_never_forgotten_witness :
  let st := state_after (new_member Sample.cfg Sample.world (Sample.bot_joined 7 2)
                           Sample.start) in
  has_last_time 7 (step Sample.cfg (Update OnLeftMember Sample.world (Sample.bot_left 7 2)) st).
Proof.
  apply last_time_never_forgotten. exists 1000. vm_compute. reflexivity.
Defined.

(** ** Commands as they are typed *)

(** For every integer [h], an authorized message whose text is a command
    word, a run of whitespace, the decimal notation of [h] and then nothing
    or anything that starts with a whitespace character sets the interval to
    [h * 3600] seconds, and the reply echoes that notation. *)
Theorem interval_command_text cfg w message st cmd sep h tail :
  authorized cfg w message = true ->
  Py.no_space cmd = true -> cmd ≠ "" ->
  Py.blank_run sep -> Py.ends_token tail ->
  text message = cmd ++ sep ++ Py.str_int h ++ tail ->
  let r := set_interval cfg w message st in
  MESSAGE_INTERVAL (state_after r) = h * 3600
  ∧ trace_of r
    = [ReplyTo (chat_id message)
         ("⏰ Posting interval set to " ++ Py.str_int h ++ " hours")].
Proof.
  intros Hauth Hcmd Hne Hsep Htail Htext r.
  assert (Htok : Py.split (text message) !! 1%nat = Some (Py.str_int h)).
  { destruct (split_command_argument cmd sep (Py.str_int h) tail) as [more Hsplit];
      try done.
    - apply str_int_no_space.
    - apply str_int_chars.
    - by rewrite Htext, Hsplit. }
  pose proof (set_interval_token cfg w message st (Py.str_int h) h Hauth Htok
                (int_str_int h)) as H.
  cbv zeta in H. fold r in H. destruct H as [Hst Htr]. split; [by rewrite Hst|exact Htr].
Qed.

Lemma interval_command_text_witness :
  let message :=
    Sample.command 7 Group 2
      ("/interval@linkbot" ++ Py.utf8 160 ++ Py.str_int (-3) ++ " hours") in
  let r := set_interval Sample.cfg Sample.world message Sample.start in
  MESSAGE_INTERVAL (state_after r) = -3 * 3600
  ∧ trace_of r = [ReplyTo 7 ("⏰ Posting interval set to " ++ Py.str_int (-3) ++ " hours")].
Proof.
  apply (interval_command_text Sample.cfg Sample.world
           (Sample.command 7 Group 2
              ("/interval@linkbot" ++ Py.utf8 160 ++ Py.str_int (-3) ++ " hours"))
           Sample.start "/interval@linkbot" (Py.utf8 160) (-3) " hours");
    [reflexivity|reflexivity|discriminate| | |reflexivity].
  - apply Py.blank_run_one. vm_compute. tauto.
  - right. exists " ", "hours". split; [vm_compute; tauto|reflexivity].
Defined.

(** ** Stored overrides are single tokens *)

(** In every reachable state no stored override is empty or holds a
    whitespace character (of those at which [str.split()] separates): an
    override is always one token of a message. *)
Theorem overrides_are_tokens cfg st :
  reachable cfg st -> overrides_unbroken st.
Proof.
  induction 1 as [env interval Henv|st ev Hreach IH Hok].
  - intros chat l H. simpl in H. by rewrite lookup_empty in H.
  - assert (Hkept : ∀ st', GROUP_LINKS st' = GROUP_LINKS st -> overrides_unbroken st').
    { intros st' Heq chat l H. rewrite Heq in H. by apply (IH chat). }
    destruct ev as [h w message|w]; simpl.
    + destruct (decide (h = OnSetLink)) as [->|Hs].
      { simpl. destruct (set_link_cases cfg w message st) as [-> | (u & Htok & _ & ->)];
          [exact IH|].
        intros chat l H. simpl in H.
        destruct (decide (chat = chat_id message)) as [->|Hne].
        - rewrite lookup_insert_eq in H. injection H as <-.
          by apply (second_token_unbroken (text message)).
        - rewrite lookup_insert_ne in H by done. by apply (IH chat). }
      destruct (decide (h = OnDefaultLink)) as [->|Hd].
      { simpl. destruct (default_link_cases cfg w message st) as [-> | ->]; [exact IH|].
        intros chat l H. simpl in H. apply lookup_delete_Some in H as [_ H].
        by apply (IH chat). }
      apply Hkept. by apply (links_kept_handler cfg w h message Hs Hd st).
    + apply Hkept. by apply (links_kept_round cfg w st).
Qed.

Lemma overrides_are_tokens_witness :
  overrides_unbroken
    (step Sample.cfg
       (Update OnSetLink Sample.world
          (Sample.command 7 Group 2 ("/setlink" ++ Py.utf8 8232 ++ "https://a.example")))
       Sample.start).
Proof.
  apply (overrides_are_tokens Sample.cfg).
  apply reachable_step; [exact sample_start_reachable|exact I].
Defined.

(** ** Loading the configuration *)

Lemma split_on_go_piece sep a : ∀ cur,
  Forall (fun c => c ≠ sep) (list_ascii_of_string a) ->
  Py.split_on_go sep cur a
  = [string_of_list_ascii (rev (rev (list_ascii_of_string a) ++ cur))].
Proof.
  induction a as [|c r IH]; intros cur Ha; [reflexivity|].
  simpl in Ha. inversion Ha as [|? ? Hc Hr]; subst.
  simpl. rewrite (proj2 (Ascii.eqb_neq c sep)) by exact Hc.
  rewrite IH by exact Hr. by rewrite <- app_assoc.
Qed.

Lemma split_on_go_app sep a : ∀ cur rest,
  Forall (fun c => c ≠ sep) (list_ascii_of_string a) ->
  Py.split_on_go sep cur (a ++ rest)
  = Py.split_on_go sep (rev (list_ascii_of_string a) ++ cur)%list rest.
Proof.
  induction a as [|c r IH]; intros cur rest Ha; [reflexivity|].
  simpl in Ha. inversion Ha as [|? ? Hc Hr]; subst.
  app_simpl. simpl. rewrite (proj2 (Ascii.eqb_neq c sep)) by exact Hc.
  rewrite IH by exact Hr. by rewrite <- app_assoc.
Qed.

Lemma split_on_concat sep piece pieces :
  Forall (fun s => Forall (fun c => c ≠ sep) (list_ascii_of_string s)) (piece :: pieces) ->
  Py.split_on sep (String.concat (String sep "") (piece :: pieces)) = piece :: pieces.
Proof.
  revert piece. induction pieces as [|next later IH]; intros piece Hall.
  - inversion Hall as [|? ? Hp _]; subst. simpl. unfold Py.split_on.
    rewrite split_on_go_piece by exact Hp.
    by rewrite app_nil_r, rev_involutive, string_of_list_ascii_of_string.
  - inversion Hall as [|? ? Hp Hrest]; subst.
    change (String.concat (String sep "") (piece :: next :: later))
      with (piece ++ String sep (String.concat (String sep "") (next :: later))).
    unfold Py.split_on. rewrite split_on_go_app by exact Hp. rewrite app_nil_r.
    simpl Py.split_on_go. rewrite Ascii.eqb_refl.
    rewrite rev_involutive, string_of_list_ascii_of_string.
    f_equal. by apply IH.
Qed.

Lemma split_on_go_trailing sep s : ∀ cur,
  Py.split_on_go sep cur (s ++ String sep "")
  = (Py.split_on_go sep cur s ++ [""])%list.
Proof.
  induction s as [|c r IH]; intros cur; app_simpl; simpl.
  - by rewrite Ascii.eqb_refl.
  - destruct (Ascii.eqb c sep); [|apply IH]. simpl. f_equal. apply IH.
Qed.

Lemma lstrip_space_no_space l :
  Forall (fun c => Py.is_space c = false) l -> Py.lstrip_space l = l.
Proof.
  intros H. destruct H as [|c l Hc Hl]; [reflexivity|]. simpl. by rewrite Hc.
Qed.

Lemma strip_space_str_int z : Py.strip_space (Py.str_int z) = Py.str_int z.
Proof.
  assert (H : Forall (fun c => Py.is_space c = false)
                (list_ascii_of_string (Py.str_int z))).
  { eapply List.Forall_impl; [|apply (str_int_chars z)]. by intros c [[_ Hc] _]. }
  unfold Py.strip_space.
  rewrite (lstrip_space_no_space _ H). rewrite lstrip_space_no_space.
  - by rewrite rev_involutive, string_of_list_ascii_of_string.
  - by apply List.Forall_rev.
Qed.

Lemma mapM_round_trip {A B} (f : A -> option B) (g : B -> A) l :
  Forall (fun y => f (g y) = Some y) l -> mapM f (List.map g l) = Some l.
Proof.
  induction 1 as [|y l Hy Hl IH]; [reflexivity|].
  simpl. by rewrite Hy, IH.
Qed.

Lemma mapM_last_fails {A B} (f : A -> option B) l x :
  f x = None -> mapM f (l ++ [x]) = None.
Proof.
  intros Hx. induction l as [|a l IH]; simpl.
  - by rewrite Hx.
  - destruct (f a); [|reflexivity]. simpl. by rewrite IH.
Qed.

(** [ADMIN_IDS]: without the variable, or with an empty one, nobody is a
    process-wide admin; a comma-separated list of integers in decimal
    notation, none longer than 640 characters, is read back as that list by
    every interpreter; and a list that ends with a comma makes the start-up
    fail ([int] raises on the empty last piece). *)
Theorem load_ADMIN_IDS_reads other id ids :
  Forall (fun z => (String.length (Py.str_int z) <= 640)%nat) (id :: ids) ->
  load_ADMIN_IDS other None = Some []
  ∧ load_ADMIN_IDS other (Some "") = Some []
  ∧ load_ADMIN_IDS other (Some (String.concat "," (List.map Py.str_int (id :: ids))))
    = Some (id :: ids)
  ∧ (∀ s, load_ADMIN_IDS other (Some (s ++ ",")) = None).
Proof.
  intros Hshort. split; [reflexivity|]. split; [reflexivity|]. split.
  - assert (Hsplit : Py.split_on "," (String.concat "," (List.map Py.str_int (id :: ids)))
                     = List.map Py.str_int (id :: ids)).
    { apply (split_on_concat ","%char). apply List.Forall_forall. intros s Hs.
      change (In s (List.map Py.str_int (id :: ids))) in Hs.
      apply List.in_map_iff in Hs as (z & <- & _).
      eapply List.Forall_impl; [|apply (str_int_chars z)]. by intros c [_ Hc]. }
    unfold load_ADMIN_IDS.
    destruct (String.concat "," (List.map Py.str_int (id :: ids))) as [|c r] eqn:E.
    + exfalso. simpl in Hsplit. injection Hsplit as Hid _.
      by apply (proj2 (str_int_chars id)).
    + rewrite Hsplit. apply mapM_round_trip.
      eapply List.Forall_impl; [|exact Hshort]. intros z Hz. cbv beta in Hz |- *.
      rewrite strip_space_str_int. unfold Py.int_with.
      rewrite str_int_ascii, (proj2 (Nat.leb_le _ _) Hz). apply int_str_int.
  - intros s. unfold load_ADMIN_IDS.
    assert (Hfail : mapM (fun id => Py.int_with (Some 640%nat) (fun _ => other id)
                                      (Py.strip_space id))
                      (Py.split_on "," (s ++ ","))
                    = None).
    { unfold Py.split_on. rewrite (split_on_go_trailing ","%char).
      by apply mapM_last_fails. }
    destruct s as [|c r]; [reflexivity|]. exact Hfail.
Qed.

Lemma load_ADMIN_IDS_reads_witness :
  load_ADMIN_IDS (fun _ => None) (Some (String.concat "," (List.map Py.str_int [5; -7])))
  = Some [5; -7].
Proof.
  refine (proj1 (proj2 (proj2 (load_ADMIN_IDS_reads (fun _ => None) 5 [-7] _)))).
  repeat constructor; vm_compute; lia.
Defined.

(** ** The first round *)

(** Started from the initial state, whatever the start-up interval, the
    first round of the broadcaster sends nothing: it only sleeps, and the
    state after it is still the initial one. *)
Theorem first_round_only_sleeps cfg w interval :
  set_order_ok w ->
  trace_of (send_links_round cfg w (initial_state interval))
  = sleep_effects w interval
  ∧ state_after (send_links_round cfg w (initial_state interval))
    = initial_state interval.
Proof.
  intros Hok.
  pose proof (send_links_round_run cfg w (initial_state interval)) as H.
  cbv zeta in H. destruct H as [Hst Htr].
  assert (Hempty : list_of_set w (ACTIVE_GROUPS (initial_state interval)) = []).
  { apply Permutation_nil_r. symmetry. rewrite (Hok _). simpl.
    by rewrite elements_empty. }
  rewrite Hempty in Hst, Htr. split; [exact Htr|exact Hst].
Qed.

Lemma first_round_only_sleeps_witness :
  trace_of (send_links_round Sample.cfg Sample.world (initial_state (24 * 3600)))
  = sleep_effects Sample.world (24 * 3600).
Proof.
  refine (proj1 (first_round_only_sleeps Sample.cfg Sample.world (24 * 3600) _)).
  intros a. reflexivity.
Defined.

(** ** The next-post estimate *)

(** After a successful periodic send to a chat, the estimate that [/stats]
    shows for that chat is the time of the send plus the interval in force
    when the estimate is asked, and a later [/interval h] moves it to the
    time of the send plus [h * 3600]; when that sum is no date that
    [datetime] can hold, asking for the estimate raises [OverflowError]. *)
Theorem next_post_time_after_send cfg w w1 w2 chat message st tok hours :
  send_fails cfg w st chat = false ->
  authorized cfg w1 message = true ->
  Py.split (text message) !! 1%nat = Some tok ->
  Py.int tok = Some hours ->
  let st1 := state_after (send_link_to_group cfg w chat st) in
  let st2 := state_after (set_interval cfg w1 message st1) in
  let estimate secs :=
    match add_seconds (now w) secs with
    | Some next_time => Ret (strftime w2 "%Y-%m-%d %H:%M:%S" next_time)
    | None => Raise OverflowError
    end in
  result_of (get_next_post_time w2 chat st1) = estimate (MESSAGE_INTERVAL st)
  ∧ result_of (get_next_post_time w2 chat st2) = estimate (hours * 3600).
Proof.
  intros Hsend Hauth Htok Hint st1 st2 estimate.
  assert (H1 : st1 = with_LAST_MESSAGE_TIMES <[chat := now w]> st).
  { subst st1. by rewrite send_link_to_group_run, Hsend. }
  assert (H2 : st2 = with_MESSAGE_INTERVAL (hours * 3600) st1).
  { subst st2.
    by destruct (set_interval_token cfg w1 message st1 tok hours Hauth Htok Hint). }
  unfold get_next_post_time, mbind, run_bind. rewrite !bind_get. subst estimate. split.
  - rewrite H1. simpl. rewrite lookup_insert_eq.
    by destruct (add_seconds (now w) (MESSAGE_INTERVAL st)).
  - rewrite H2, H1. simpl. rewrite lookup_insert_eq.
    by destruct (add_seconds (now w) (hours * 3600)).
Qed.

Lemma next_post_time_after_send_witness :
  let st1 := state_after (send_link_to_group Sample.cfg Sample.world 7 Sample.three_groups) in
  let late :=
    state_after (set_interval Sample.cfg Sample.world
                   (Sample.command 7 Group 2 "/interval 1") st1) in
  let never :=
    state_after (set_interval Sample.cfg Sample.world
                   (Sample.command 7 Group 2 "/interval 100000000") st1) in
  result_of (get_next_post_time Sample.world 7 late) = Ret (Py.str_int (1000 + 1 * 3600))
  ∧ result_of (get_next_post_time Sample.world 7 never) = Raise OverflowError.
Proof.
  split.
  - exact (proj2 (next_post_time_after_send Sample.cfg Sample.world Sample.world
                    Sample.world 7 (Sample.command 7 Group 2 "/interval 1")
                    Sample.three_groups "1" 1 eq_refl eq_refl eq_refl eq_refl)).
  - exact (proj2 (next_post_time_after_send Sample.cfg Sample.world Sample.world
                    Sample.world 7 (Sample.command 7 Group 2 "/interval 100000000")
                    Sample.three_groups "100000000" 100000000
                    eq_refl eq_refl eq_refl eq_refl)).
Defined.
